(** * Emote auto-response: extraction and reply synchronisation

    A shallow embedding of the reply engine of
    [emoji_connoisseur/extensions/emote.py] (class [Emotes]): the token
    resolver [_extract_emotes] with its two predicates, the event handlers
    [on_message], [on_raw_message_edit], [on_raw_message_delete],
    [on_raw_bulk_message_delete], the helper [delete_reply] and the [quote]
    command.

    Coroutines become computations in a state-and-exception monad over a
    [World] holding the reply cache, the usage log written by
    [db.log_emote_use] and the trace of calls made to the Discord client.
    Collaborators whose code lives elsewhere in the repository ([utils.lexer],
    [utils.clean_content], [utils.fix_first_line], the database cog, the
    bot) are Section variables. *)

From Stdlib Require Import ZArith Ascii List Lia Bool.
From Stdlib Require String.
From stdpp Require Import base gmap sets list strings.
From stdpp Require Import pretty.

Local Open Scope Z_scope.

(** ** Python strings *)

Definition newline : string := String "010"%char EmptyString.

(** [c in chars] for a one-character [c]. *)
Fixpoint char_in (c : ascii) (chars : string) : bool :=
  match chars with
  | EmptyString => false
  | String d chars' => Ascii.eqb c d || char_in c chars'
  end.

(** [str.lstrip(chars)]. *)
Fixpoint lstrip (chars s : string) : string :=
  match s with
  | EmptyString => EmptyString
  | String c s' => if char_in c chars then lstrip chars s' else s
  end.

(** [str.rstrip(chars)]. *)
Definition rstrip (chars s : string) : string :=
  String.rev (lstrip chars (String.rev s)).

(** [str.strip(chars)]: leading and trailing characters of [chars] removed. *)
Definition strip (chars s : string) : string :=
  rstrip chars (lstrip chars s).

(** [s[n:]]. *)
Fixpoint string_drop (n : nat) (s : string) : string :=
  match n, s with
  | O, _ => s
  | S n', EmptyString => EmptyString
  | S n', String _ s' => string_drop n' s'
  end.

(** [''.join(parts)]. *)
Definition join (parts : list string) : string :=
  fold_right String.append EmptyString parts.

(** ** Exceptions

    [discord.NotFound] and [discord.Forbidden] are subclasses of
    [discord.HTTPException], which the client raises for an HTTP error
    status.  A request can also fail below HTTP (a connection error of
    [aiohttp], a timeout): such an exception is of another class. *)

Inductive HTTPError : Type :=
  | NotFound
  | Forbidden
  | HTTPException.

Inductive exn : Type :=
  | HTTP (e : HTTPError)
  | KeyError
  | TypeError
  | AttributeError
  (** an exception of any other class, by the name of the class *)
  | Other (class_name : string).

(** [isinstance(e, discord.HTTPException)] *)
Definition is_HTTPException (e : exn) : bool :=
  match e with HTTP _ => true | _ => false end.

(** [isinstance(e, discord.NotFound)] *)
Definition is_NotFound (e : exn) : bool :=
  match e with HTTP NotFound => true | _ => false end.

(** ** The reply cache

    [utils.LRUDict] is instantiated in [Emotes.__init__]; its class body is
    in [utils], outside the two modules embedded here. *)

Module LRUDict.

(** Modelled from the spec: [utils.LRUDict] (the class is not among the
    embedded sources). "The cache holds at most N entries ...
    least-recently-inserted/accessed entry is dropped first (LRU).
    Eviction ... only removes tracking."  Entries are kept oldest first;
    inserting or reading a key makes it the newest. *)
Record t (V : Type) : Type := mk { size : nat; items : list (Z * V) }.
Arguments mk {V} _ _.
Arguments size {V} _.
Arguments items {V} _.

Section Ops.
Context {V : Type}.

Definition new (n : nat) : t V := mk n [].

Definition is_key (k : Z) (kv : Z * V) : bool := Z.eqb (fst kv) k.

Definition remove (k : Z) (l : list (Z * V)) : list (Z * V) :=
  List.filter (fun kv => negb (is_key k kv)) l.

(** Reading without touching the order (used in statements only). *)
Definition peek (k : Z) (d : t V) : option V :=
  snd <$> List.find (is_key k) (items d).

(** [k in d] *)
Definition contains (k : Z) (d : t V) : bool :=
  List.existsb (is_key k) (items d).

(** [d[k]]: [None] stands for [KeyError]; a hit refreshes the entry. *)
Definition getitem (k : Z) (d : t V) : option (V * t V) :=
  match peek k d with
  | Some v => Some (v, mk (size d) (remove k (items d) ++ [(k, v)]))
  | None => None
  end.

(** [d[k] = v]: a new key entering a full cache drops the oldest entry. *)
Definition setitem (k : Z) (v : V) (d : t V) : t V :=
  if contains k d then mk (size d) (remove k (items d) ++ [(k, v)])
  else if (size d <=? length (items d))%nat
       then mk (size d) (List.tl (items d) ++ [(k, v)])
       else mk (size d) (items d ++ [(k, v)]).

(** [del d[k]] *)
Definition delitem (k : Z) (d : t V) : option (t V) :=
  if contains k d then Some (mk (size d) (remove k (items d))) else None.

(** [d.pop(k)] *)
Definition pop (k : Z) (d : t V) : option (V * t V) :=
  match peek k d with
  | Some v => Some (v, mk (size d) (remove k (items d)))
  | None => None
  end.

(** In-place mutation of the object stored under [k]: the dictionary
    itself is not written, so the order stays. *)
Definition mutate (k : Z) (f : V -> V) (d : t V) : t V :=
  mk (size d)
     (List.map (fun kv => if is_key k kv then (fst kv, f (snd kv)) else kv)
               (items d)).


End Ops.
End LRUDict.

(** ** Discord objects *)

Record Permissions : Type := {
  external_emojis : bool;
  manage_messages : bool
}.

Record Guild : Type := {
  guild_id : Z;
  (** [guild.me.permissions_in(channel)], by channel id *)
  me_permissions_in : Z -> Permissions
}.

Record Channel : Type := {
  channel_id : Z;
  channel_guild : option Guild
}.

Record User : Type := {
  user_id : Z;
  mention : string
}.

(** [discord.Message]; [message.guild] is the guild of its channel. *)
Record Message : Type := {
  message_id : Z;
  channel : Channel;
  author : User;
  content : string
}.

Definition guild (message : Message) : option Guild :=
  channel_guild (channel message).

Definition set_content (text : string) (message : Message) : Message :=
  {| message_id := message_id message;
     channel := channel message;
     author := author message;
     content := text |}.

(** The [data] dictionary of a raw edit payload: the [content] key may be
    absent. *)
Record MessageData : Type := {
  data_channel_id : Z;
  data_author : User;
  data_content : option string
}.

(** [RawMessageUpdateEvent] *)
Record RawMessageUpdateEvent : Type := {
  payload_message_id : Z;
  data : MessageData
}.

(** [DatabaseEmote]: [emote.id] and [str(emote)]. *)
Record DatabaseEmote : Type := {
  emote_id : Z;
  emote_str : string
}.

(** A token of [utils.lexer]: [toke1.type] and [toke1.value]. *)
Record Token : Type := {
  type : string;
  value : string
}.

(** ** The world the handlers run in *)

(** Requests sent to Discord. *)
Inductive Call : Type :=
  | Send (channel : Z) (text : string)
  | Edit (message : Z) (text : string)
  | Delete (message : Z).

Record World : Type := {
  (** [self.replies] *)
  replies : LRUDict.t Message;
  (** the calls [db.log_emote_use(emote_id, user_id)] made so far *)
  usage : list (Z * Z);
  (** the requests issued so far, oldest first *)
  calls : list Call
}.

Definition set_replies (d : LRUDict.t Message) (w : World) : World :=
  {| replies := d; usage := usage w; calls := calls w |}.

Definition add_usage (u : Z * Z) (w : World) : World :=
  {| replies := replies w; usage := usage w ++ [u]; calls := calls w |}.

Definition add_usages (l : list (Z * Z)) (w : World) : World :=
  {| replies := replies w; usage := usage w ++ l; calls := calls w |}.

Definition add_call (c : Call) (w : World) : World :=
  {| replies := replies w; usage := usage w; calls := calls w ++ [c] |}.

(** ** Coroutines: state and exceptions *)

Inductive Result (A : Type) : Type :=
  | Ok (a : A)
  | Raise (e : exn).
Arguments Ok {A} _.
Arguments Raise {A} _.

Definition M (A : Type) : Type := World -> Result A * World.

Definition ret {A} (a : A) : M A := fun w => (Ok a, w).

Definition raise {A} (e : exn) : M A := fun w => (Raise e, w).

Definition bind {A B} (m : M A) (k : A -> M B) : M B :=
  fun w =>
    match m w with
    | (Ok a, w') => k a w'
    | (Raise e, w') => (Raise e, w')
    end.

Declare Scope coro_scope.
Delimit Scope coro_scope with coro.
Notation "'let*' x ':=' m 'in' k" := (bind m (fun x => k))
  (at level 10, x pattern, m at level 100, k at level 200) : coro_scope.
Notation "m ;; k" := (bind m (fun _ => k))
  (at level 100, right associativity) : coro_scope.

Local Open Scope coro_scope.

(** [with contextlib.suppress(cls): body] *)
Definition suppress (cls : exn -> bool) (body : M unit) : M unit :=
  fun w =>
    match body w with
    | (Raise e, w') => if cls e then (Ok tt, w') else (Raise e, w')
    | r => r
    end.

(** [for x in xs: body(x)] *)
Fixpoint for_each {A} (xs : list A) (body : A -> M unit) : M unit :=
  match xs with
  | [] => ret tt
  | x :: xs' => body x ;; for_each xs' body
  end.

(** ** Collaborators *)

(** The database cog, as far as the reply engine reads it.
    [get_emote name = None] stands for [errors.EmoteNotFoundError]. *)
Record Database : Type := {
  get_emote : string -> option DatabaseEmote;
  get_state : option Z -> Z -> bool;
  get_user_blacklist : Z -> option string
}.

Record Bot : Type := {
  should_reply : Message -> bool;
  (** [(await bot.get_context(message)).valid] *)
  context_valid : Message -> bool;
  get_channel : Z -> Channel;
  user : User
}.

(** How each request ends: with the id of the message created by a send,
    or with the exception raised, of whatever class. *)
Record Discord : Type := {
  send_outcome : Z -> string -> exn + Z;
  edit_outcome : Z -> string -> option exn;
  delete_outcome : Z -> option exn
}.

(** [commands.Context]: guild, channel and author are those of the
    invoking message. *)
Record Context : Type := {
  context_message : Message
}.

Section Emotes.

Variable lexer : string -> list Token.
Variable clean_content : Message -> string -> string.
Variable fix_first_line : string -> string.
Variable db : Database.
Variable bot : Bot.
Variable discord : Discord.

(** *** Primitive effects *)

(** [await self.db.log_emote_use(emote_id, user_id)] *)
Definition log_emote_use (emote user_id : Z) : M unit :=
  fun w => (Ok tt, add_usage (emote, user_id) w).

(** [await channel.send(text)] *)
Definition send (ch : Channel) (text : string) : M Message :=
  fun w =>
    let w' := add_call (Send (channel_id ch) text) w in
    match send_outcome discord (channel_id ch) text with
    | inr new_id =>
        (Ok {| message_id := new_id; channel := ch;
               author := user bot; content := text |}, w')
    | inl e => (Raise e, w')
    end.

(** [await message.delete()] *)
Definition delete (message : Message) : M unit :=
  fun w =>
    let w' := add_call (Delete (message_id message)) w in
    match delete_outcome discord (message_id message) with
    | None => (Ok tt, w')
    | Some e => (Raise e, w')
    end.

(** [await reply.edit(content=text)] where [reply] is the object stored
    under [key] in [self.replies]: on success the stored object carries
    the new content. *)
Definition edit (key : Z) (reply : Message) (text : string) : M unit :=
  fun w =>
    let w' := add_call (Edit (message_id reply) text) w in
    match edit_outcome discord (message_id reply) text with
    | None =>
        (Ok tt, set_replies (LRUDict.mutate key (set_content text) (replies w')) w')
    | Some e => (Raise e, w')
    end.

(** [message_id in self.replies] *)
Definition replies_contains (k : Z) : M bool :=
  fun w => (Ok (LRUDict.contains k (replies w)), w).

(** [self.replies[k]] *)
Definition replies_getitem (k : Z) : M Message :=
  fun w =>
    match LRUDict.getitem k (replies w) with
    | Some (reply, d) => (Ok reply, set_replies d w)
    | None => (Raise KeyError, w)
    end.

(** [self.replies[k] = reply] *)
Definition replies_setitem (k : Z) (reply : Message) : M unit :=
  fun w => (Ok tt, set_replies (LRUDict.setitem k reply (replies w)) w).

(** [del self.replies[k]] *)
Definition replies_delitem (k : Z) : M unit :=
  fun w =>
    match LRUDict.delitem k (replies w) with
    | Some d => (Ok tt, set_replies d w)
    | None => (Raise KeyError, w)
    end.

(** [self.replies.pop(k)] *)
Definition replies_pop (k : Z) : M Message :=
  fun w =>
    match LRUDict.pop k (replies w) with
    | Some (reply, d) => (Ok reply, set_replies d w)
    | None => (Raise KeyError, w)
    end.

(** *** [_extract_emotes] *)

(** A predicate receives the token and the output buffer and returns its
    verdict together with the buffer as it left it. *)
Definition Predicate : Type := Token -> string -> bool * string.

(** One turn of the loop over the tokens (lines 726-736). *)
Definition scan_step (predicate : Predicate)
    (st : string * gset Z) (toke1 : Token) : string * gset Z :=
  let '(out, emotes_used) := st in
  let '(accepted, out) := predicate toke1 out in
  if negb accepted then (out, emotes_used)
  else
    match get_emote db (strip ":;" (value toke1)) with
    | None => (out +:+ value toke1, emotes_used)
    | Some emote => (out +:+ emote_str emote, emotes_used ∪ {[ emote_id emote ]})
    end.

(** The loop, from an empty buffer and an empty set. *)
Definition scan (predicate : Predicate) (content : string) : string * gset Z :=
  fold_left (scan_step predicate) (lexer content) (EmptyString, ∅).

Definition emotes_used (predicate : Predicate) (content : string) : gset Z :=
  snd (scan predicate content).

(** [bool(emotes_used)] *)
Definition has_emotes (predicate : Predicate) (content : string) : bool :=
  bool_decide (emotes_used predicate content ≠ ∅).

(** [result = out.getvalue() if emotes_used else content] (line 738) *)
Definition result (predicate : Predicate) (content : string) : string :=
  if has_emotes predicate content then fst (scan predicate content) else content.

Definition _extract_emotes (message : Message) (content_arg : option string)
    (predicate : Predicate) (log_usage : bool) : M (string * bool) :=
  let content := default (content message) content_arg in
  (if log_usage
   then for_each (elements (emotes_used predicate content))
                 (fun emote => log_emote_use emote (user_id (author message)))
   else ret tt) ;;
  ret (clean_content message (result predicate content),
       has_emotes predicate content).

(** The predicate of [extract_emotes]: newlines are copied, other text is
    dropped, emote tokens are looked up. *)
Definition extract_predicate : Predicate :=
  fun toke1 out =>
    if String.eqb (type toke1) "TEXT" && String.eqb (value toke1) newline
    then (false, out +:+ value toke1)
    else (String.eqb (type toke1) "EMOTE", out).

Definition extract_emotes (message : Message) (content_arg : option string)
    (log_usage : bool) : M (string * bool) :=
  let* (extracted, has_emotes) :=
    _extract_emotes message content_arg extract_predicate log_usage in
  ret (fix_first_line extracted, has_emotes).

(** The predicate of [quote_emotes]: everything but emote tokens is
    copied. *)
Definition quote_predicate : Predicate :=
  fun toke1 out =>
    if negb (String.eqb (type toke1) "EMOTE")
    then (false, out +:+ value toke1)
    else (true, out).

Definition quote_emotes (message : Message) (content_arg : option string)
    (log_usage : bool) : M (string * bool) :=
  _extract_emotes message content_arg quote_predicate log_usage.

(** *** Events *)

Definition on_message (message : Message) : M unit :=
  if negb (should_reply bot message) then ret tt
  else if context_valid bot message then ret tt
  else if match guild message with
          | Some g => negb (external_emojis (me_permissions_in g (channel_id (channel message))))
          | None => false
          end then ret tt
  else
    let guild := guild_id <$> guild message in
    if negb (get_state db guild (user_id (author message))) then ret tt
    else
      match get_user_blacklist db (user_id (author message)) with
      | Some _ => ret tt
      | None =>
          let* (reply, has_emotes) := extract_emotes message None true in
          if negb has_emotes then ret tt
          else
            let* sent := send (channel message) reply in
            replies_setitem (message_id message) sent
      end.

(** [discord.Message(state=..., channel=..., data=payload.data)] in the
    branch where the content key is present. *)
Definition message_of_payload (payload : RawMessageUpdateEvent) (text : string)
    : Message :=
  {| message_id := payload_message_id payload;
     channel := get_channel bot (data_channel_id (data payload));
     author := data_author (data payload);
     content := text |}.

Definition on_raw_message_edit (payload : RawMessageUpdateEvent) : M unit :=
  let* tracked := replies_contains (payload_message_id payload) in
  match data_content (data payload) with
  | None => ret tt
  | Some text =>
      if negb tracked then ret tt
      else
        let message := message_of_payload payload text in
        let* (emotes, message_has_emotes) := extract_emotes message None false in
        let* reply := replies_getitem (payload_message_id payload) in
        if negb message_has_emotes then
          replies_delitem (payload_message_id payload) ;;
          delete reply
        else if String.eqb emotes (content reply) then ret tt
        else edit (payload_message_id payload) reply emotes
  end.

Definition delete_reply (message_id : Z) : M unit :=
  fun w =>
    match replies_pop message_id w with
    | (Raise KeyError, w') => (Ok tt, w')
    | (Raise e, w') => (Raise e, w')
    | (Ok message, w') => suppress is_HTTPException (delete message) w'
    end.

(** The handler receives the payload and passes its [message_id] on. *)
Definition on_raw_message_delete (message_id : Z) : M unit :=
  delete_reply message_id.

(** [payload.message_ids] is a set of ids: [message_ids] lists them in the
    order in which iterating over the set yields them, each id once. *)
Definition on_raw_bulk_message_delete (message_ids : list Z) : M unit :=
  for_each message_ids delete_reply.

(** *** The [quote] command *)

(** Calling a local name bound to a [bool]:
    [TypeError: 'bool' object is not callable]. *)
Definition call_bool (callee : bool) (arg : string) : M string :=
  raise TypeError.

(** [template.format(context)]: the template names the field [context]
    but the argument is positional, so the lookup of the field fails. *)
Definition format_positional (template : string) (context : Context) : M string :=
  raise KeyError.

Definition quote (context : Context) (message : string) : M unit :=
  (* the second component is bound to the local name [_] *)
  let* (message, underscore) :=
    quote_emotes (context_message context) (Some message) false in
  match guild (context_message context) with
  | None => raise AttributeError
  | Some g =>
      let* message :=
        if manage_messages
             (me_permissions_in g (channel_id (channel (context_message context))))
        then
          let* template := call_bool underscore "{context.author.mention} said:" in
          let* said := format_positional template context in
          let message := said +:+ message in
          suppress is_NotFound (delete (context_message context)) ;;
          ret message
        else ret message in
      let* _ := send (channel (context_message context)) message in
      ret tt
  end.

End Emotes.

(** [Emotes.__init__]: an empty cache of [1024**2//256] entries. *)
Definition replies_size : nat := Z.to_nat (1024 ^ 2 / 256).

Definition init_world : World :=
  {| replies := LRUDict.new replies_size; usage := []; calls := [] |}.

(** ** The event feed

    The gateway events the cog listens to, and invocations of [quote]. *)
Inductive Event : Type :=
  | MessageCreate (message : Message)
  | RawMessageEdit (payload : RawMessageUpdateEvent)
  | RawMessageDelete (message_id : Z)
  | RawBulkMessageDelete (message_ids : list Z)
  | QuoteCommand (context : Context) (message : string).

Section Dispatch.

Variable lexer : string -> list Token.
Variable clean_content : Message -> string -> string.
Variable fix_first_line : string -> string.

Definition dispatch (db : Database) (bot : Bot) (discord : Discord) (event : Event)
    : M unit :=
  match event with
  | MessageCreate message =>
      on_message lexer clean_content fix_first_line db bot discord message
  | RawMessageEdit payload =>
      on_raw_message_edit lexer clean_content fix_first_line db bot discord payload
  | RawMessageDelete message_id => on_raw_message_delete discord message_id
  | RawBulkMessageDelete message_ids => on_raw_bulk_message_delete discord message_ids
  | QuoteCommand context message =>
      quote lexer clean_content db bot discord context message
  end.

(** The world after a history of events, each met with the database, the
    bot and the Discord answers of its time.  A handler that raises ends
    there; the next event is handled in the world it left. *)
Definition run (history : list (Database * Bot * Discord * Event)) : World :=
  foldl (fun w '(db, bot, discord, event) => snd (dispatch db bot discord event w))
        init_world history.

End Dispatch.

(** ** A tokenizer *)

Module Lexer.

(** Modelled from the spec: [utils.lexer] (the token rules are in
    [utils], not among the embedded sources). "Must recognize two symbol
    delimiter forms around a bare identifier ([:ident:] and [;ident;]) and
    classify everything else, including newlines, as TEXT tokens."  An
    identifier is a non-empty run of ASCII letters, digits and
    underscores; every other character is a TEXT token of its own. *)
Definition is_ident_char (c : ascii) : bool :=
  let n := nat_of_ascii c in
  ((48 <=? n) && (n <=? 57) || (65 <=? n) && (n <=? 90)
   || (97 <=? n) && (n <=? 122) || (n =? 95))%nat.

Fixpoint span_ident (s : string) : nat :=
  match s with
  | String c s' => if is_ident_char c then S (span_ident s') else O
  | EmptyString => O
  end.

(** When a symbol starts at delimiter [c], the number of characters of
    [rest] it takes (identifier and closing delimiter). *)
Definition symbol_length (c : ascii) (rest : string) : option nat :=
  if char_in c ":;" then
    let n := span_ident rest in
    match String.get n rest with
    | Some d => if (0 <? n)%nat && Ascii.eqb d c then Some (S n) else None
    | None => None
    end
  else None.

Fixpoint lex_from (skip : nat) (s : string) : list Token :=
  match s with
  | EmptyString => []
  | String c rest =>
      match skip with
      | S k => lex_from k rest
      | O =>
          match symbol_length c rest with
          | Some n =>
              {| type := "EMOTE"; value := String c (String.substring 0 n rest) |}
                :: lex_from n rest
          | None =>
              {| type := "TEXT"; value := String c EmptyString |}
                :: lex_from 0 rest
          end
      end
  end.

Definition lexer (content : string) : list Token := lex_from 0 content.

End Lexer.

(** ** Vocabulary of the statements *)

Section Vocabulary.

Variable db : Database.
Variable bot : Bot.

Definition is_emote (toke1 : Token) : bool := String.eqb (type toke1) "EMOTE".

Definition is_newline (toke1 : Token) : bool :=
  String.eqb (type toke1) "TEXT" && String.eqb (value toke1) newline.

(** The lookup [_extract_emotes] makes for a token. *)
Definition resolve (toke1 : Token) : option DatabaseEmote :=
  get_emote db (strip ":;" (value toke1)).

(** What a looked-up token leaves in the output: the rendered emote, or
    its own text when the emote is not found. *)
Definition rendered (toke1 : Token) : string :=
  match resolve toke1 with
  | Some emote => emote_str emote
  | None => value toke1
  end.

(** The text a token contributes under [quote_emotes]. *)
Definition quote_piece (toke1 : Token) : string :=
  if is_emote toke1 then rendered toke1 else value toke1.

(** The text a token contributes under [extract_emotes]. *)
Definition extract_piece (toke1 : Token) : string :=
  if is_newline toke1 then value toke1
  else if is_emote toke1 then rendered toke1
  else EmptyString.

(** Emote [e] is the answer to the lookup of some emote token. *)
Definition resolved_in (tokens : list Token) (e : Z) : Prop :=
  Exists (fun toke1 =>
            is_emote toke1 = true /\
            exists emote, resolve toke1 = Some emote /\ emote_id emote = e)
         tokens.

(** The ids a token adds to [emotes_used]. *)
Definition token_ids (toke1 : Token) : gset Z :=
  if is_emote toke1 then
    match resolve toke1 with
    | Some emote => {[ emote_id emote ]}
    | None => ∅
    end
  else ∅.

Definition resolved_ids (tokens : list Token) : gset Z :=
  ⋃ (token_ids <$> tokens).

Definition all_resolve (tokens : list Token) : Prop :=
  Forall (fun toke1 => is_emote toke1 = true -> is_Some (resolve toke1)) tokens.

Definition none_resolves (tokens : list Token) : Prop :=
  Forall (fun toke1 => is_emote toke1 = true -> resolve toke1 = None) tokens.

(** [on_message] gets as far as the extraction. *)
Definition auto_response (message : Message) : bool :=
  should_reply bot message
  && negb (context_valid bot message)
  && match guild message with
     | Some g => external_emojis (me_permissions_in g (channel_id (channel message)))
     | None => true
     end
  && get_state db (guild_id <$> guild message) (user_id (author message))
  && bool_decide (get_user_blacklist db (user_id (author message)) = None).

(** Number of [log_emote_use] calls for emote [e] in a stretch of the log. *)
Definition increments (e : Z) (l : list (Z * Z)) : nat :=
  length (List.filter (fun p => Z.eqb (fst p) e) l).

End Vocabulary.

(** The cache once the entries of the keys [ks] are gone; the others keep
    their order. *)
Definition without_keys {V} (ks : list Z) (d : LRUDict.t V) : LRUDict.t V :=
  LRUDict.mk (LRUDict.size d)
    (List.filter (fun kv => negb (List.existsb (Z.eqb (fst kv)) ks)) (LRUDict.items d)).

(** One delete request for the reply of each key of [ks] that has an entry
    in [d], in the order of [ks]. *)
Definition delete_calls (ks : list Z) (d : LRUDict.t Message) : list Call :=
  omap (fun k => (fun reply => Delete (message_id reply)) <$> LRUDict.peek k d) ks.


(** The requests a run added to the trace. *)
Definition new_calls (before after : World) : list Call :=
  drop (length (calls before)) (calls after).

Definition is_edit (c : Call) : bool :=
  match c with Edit _ _ => true | _ => false end.

Definition is_delete (c : Call) : bool :=
  match c with Delete _ => true | _ => false end.

(** ** A small deployment to run the handlers on *)

Module Sample.

Definition emote_x : DatabaseEmote := {| emote_id := 1; emote_str := "<:x:1>" |}.
Definition emote_y : DatabaseEmote := {| emote_id := 2; emote_str := "<:y:2>" |}.

Definition db : Database :=
  {| get_emote := fun name =>
       if String.eqb name "x" then Some emote_x
       else if String.eqb name "y" then Some emote_y
       else None;
     get_state := fun _ _ => true;
     get_user_blacklist := fun _ => None |}.

(** The same database once every emote has been removed. *)
Definition empty_db : Database :=
  {| get_emote := fun _ => None;
     get_state := fun _ _ => true;
     get_user_blacklist := fun _ => None |}.

Definition permissions (manage : bool) : Permissions :=
  {| external_emojis := true; manage_messages := manage |}.

Definition server (manage : bool) : Guild :=
  {| guild_id := 5; me_permissions_in := fun _ => permissions manage |}.

Definition general (manage : bool) : Channel :=
  {| channel_id := 10; channel_guild := Some (server manage) |}.

Definition alice : User := {| user_id := 42; mention := "<@42>" |}.
Definition me : User := {| user_id := 7; mention := "<@7>" |}.

Definition bot : Bot :=
  {| should_reply := fun _ => true;
     context_valid := fun _ => false;
     get_channel := fun _ => general false;
     user := me |}.

(** Sends create message [1000 + channel]; deleting a message listed in
    [gone] answers [NotFound]. *)
Definition discord (gone : list Z) : Discord :=
  {| send_outcome := fun ch _ => inr (1000 + ch);
     edit_outcome := fun _ _ => None;
     delete_outcome := fun m =>
       if List.existsb (Z.eqb m) gone then Some (HTTP NotFound) else None |}.

Definition clean_content : Message -> string -> string := fun _ text => text.
Definition fix_first_line : string -> string := fun text => text.

Definition said (id : Z) (text : string) : Message :=
  {| message_id := id; channel := general false; author := alice; content := text |}.

Definition reply (id : Z) (text : string) : Message :=
  {| message_id := id; channel := general false; author := me; content := text |}.

Definition world (size : nat) (entries : list (Z * Message)) : World :=
  {| replies := LRUDict.mk size entries; usage := []; calls := [] |}.

Definition edited (id : Z) (text : option string) : RawMessageUpdateEvent :=
  {| payload_message_id := id;
     data := {| data_channel_id := 10; data_author := alice; data_content := text |} |}.

End Sample.

(** ** More Python strings *)

(** [s.split(c)[0]] for a one-character separator: the text before its
    first occurrence, or all of [s]. *)
Fixpoint before_char (c : ascii) (s : string) : string :=
  match s with
  | EmptyString => EmptyString
  | String d s' => if Ascii.eqb d c then EmptyString else String d (before_char c s')
  end.

(** [s.replace(old, new)] for a one-character [old]. *)
Fixpoint replace_char (old : ascii) (new : string) (s : string) : string :=
  match s with
  | EmptyString => EmptyString
  | String d s' =>
      if Ascii.eqb d old then new +:+ replace_char old new s'
      else String d (replace_char old new s')
  end.

(** [c in s] for a one-character [c]. *)
Definition has_char (c : ascii) (s : string) : bool := char_in c s.

(** Every character of [s] is one of [chars]. *)
Fixpoint all_in (chars s : string) : bool :=
  match s with
  | EmptyString => true
  | String c s' => char_in c chars && all_in chars s'
  end.

(** The first character of [s] is one of [chars]. *)
Definition starts_with_any (chars s : string) : bool :=
  match s with
  | EmptyString => false
  | String c _ => char_in c chars
  end.

(** The last character of [s] is one of [chars]. *)
Definition ends_with_any (chars s : string) : bool :=
  starts_with_any chars (String.rev s).

(** The tokens the predicate of [extract_emotes] reacts to. *)
Definition kept_by_extract (toke1 : Token) : bool :=
  is_emote toke1 || is_newline toke1.

(** More of the sample deployment: a database that has blacklisted
    everyone, and a Discord that refuses every request. *)
Definition blacklisting_db : Database :=
  {| get_emote := get_emote Sample.db;
     get_state := fun _ _ => true;
     get_user_blacklist := fun _ => Some "spam" |}.

Definition refusing_discord : Discord :=
  {| send_outcome := fun _ _ => inl (HTTP Forbidden);
     edit_outcome := fun _ _ => Some (HTTP Forbidden);
     delete_outcome := fun _ => Some (HTTP Forbidden) |}.

(** A Discord that cannot be reached when asked to delete one of the
    messages listed in [lost]: the request ends in a connection error,
    which is not a [discord.HTTPException]. *)
Definition unreachable_discord (lost : list Z) : Discord :=
  {| send_outcome := fun ch _ => inr (1000 + ch);
     edit_outcome := fun _ _ => None;
     delete_outcome := fun m =>
       if List.existsb (Z.eqb m) lost
       then Some (Other "aiohttp.ClientOSError") else None |}.

(** A stand-in for [utils.clean_content] that defuses mentions: U+200B
    ZERO WIDTH SPACE (as UTF-8) is put after every at sign. *)
Definition zero_width_space : string :=
  String "226" (String "128" (String "139" EmptyString)).

Definition defusing_clean_content : Message -> string -> string :=
  fun _ text => replace_char "@" ("@" +:+ zero_width_space) text.

(** Every failure of a delete request for the reply of one of the ids
    [ks] is a [discord.HTTPException]. *)
Definition delete_failures_are_http (discord : Discord) (ks : list Z)
    (d : LRUDict.t Message) : Prop :=
  forall k reply e,
    k ∈ ks ->
    LRUDict.peek k d = Some reply ->
    delete_outcome discord (message_id reply) = Some e ->
    is_HTTPException e = true.

(** ** Arguments of the [add] command *)

(** [discord.Attachment]: [filename] and [url]. *)
Record Attachment : Type := {
  attachment_filename : string;
  attachment_url : string
}.

(** The two complaints [parse_add_command_args] raises as
    [commands.BadArgument]: "I expected a custom emote as the first
    argument ..." (formatted with the command prefix) and "Your message had
    no emotes and no name!". *)
Inductive Complaint : Type :=
  | ExpectedCustomEmote (prefix : string)
  | NoEmotesNoName.

Inductive ArgsError : Type :=
  | BadArgument (complaint : Complaint)
  | IndexError.

(** [parse_add_command_attachment]: [attachments] is
    [context.message.attachments]. *)
Definition parse_add_command_attachment (attachments : list Attachment)
    (args : list string) : ArgsError + string * string :=
  match attachments with
  | [] => inl IndexError
  | attachment :: _ =>
      let name :=
        match args with
        | _ :: _ => join args
        | [] => replace_char " " EmptyString
                  (before_char "." (attachment_filename attachment))
        end in
      inr (name, attachment_url attachment)
  end.

Section AddArguments.

(** [utils.emote.RE_CUSTOM_EMOTE.match(s)]: the groups
    [(animated, name, id)] of a match. *)
Variable custom_emote_match : string -> option (string * string * string).
(** [utils.emote.url(id, animated=...)]; [None] when the keyword is left
    out. *)
Variable emote_url : string -> option string -> string.
Variable strip_angle_brackets : string -> string.


End AddArguments.

(** ** Permissions for the [react] command *)

(** The permissions [_check_reaction_permissions] reads. *)
Record ChannelPermissions : Type := {
  read_message_history : bool;
  add_reactions : bool
}.

(** The context of a [react] invocation: [context.guild] is the guild of
    the channel. *)
Record ReactContext : Type := {
  react_channel : Channel;
  (** [isinstance(context.author, discord.Member)] *)
  author_is_member : bool;
  (** [context.channel.permissions_for(context.author)] *)
  sender_permissions : ChannelPermissions;
  (** [context.channel.permissions_for(context.guild.me)] *)
  my_permissions : ChannelPermissions
}.

Section Reactions.

(** The translation function [_]. *)
Variable gettext : string -> string.
Variable bot : Bot.
Variable discord : Discord.

Definition _check_reaction_permissions (context : ReactContext) : M bool :=
  if negb (bool_decide (is_Some (channel_guild (react_channel context))))
     || negb (author_is_member context)
  then ret true
  else
    let sender_permissions := sender_permissions context in
    let permissions := my_permissions context in
    if negb (read_message_history sender_permissions)
       || negb (read_message_history permissions)
    then
      (send bot discord (react_channel context)
         (gettext "Unable to react: no permission to read message history.") ;;
       ret false)%coro
    else if negb (add_reactions sender_permissions) || negb (add_reactions permissions)
    then
      (send bot discord (react_channel context)
         (gettext "Unable to react: no permission to add reactions.") ;;
       ret false)%coro
    else ret true.

End Reactions.

(** ** Fetching the image of a new emote *)

Module Fetch.

(** What [fetch_emote] reads of an [aiohttp] response: [response.reason],
    [response.status], [response.headers.get('Content-Type')] and
    [await response.read()]. *)
Record Response : Type := {
  reason : string;
  status : Z;
  content_type : option string;
  body : string
}.

(** [errors.HTTPException(status)] and [errors.InvalidImageError]. *)
Inductive Error : Type :=
  | HTTPException (status : Z)
  | InvalidImageError.

(** [x in ('image/png', 'image/jpeg', 'image/gif')] for the value of the
    header, [None] when the header is missing. *)
Definition is_image_type (header : option string) : bool :=
  match header with
  | Some t => String.eqb t "image/png" || String.eqb t "image/jpeg"
              || String.eqb t "image/gif"
  | None => false
  end.

Section FetchEmote.

(** The answers of the server to [self.http.head(url)] and
    [self.http.get(url)]. *)
Variable head : string -> Response.
Variable get : string -> Response.

Definition fetch_emote (url : string) : Error + string :=
  let response := head url in
  if negb (String.eqb (reason response) "OK") then inl (HTTPException (status response))
  else if negb (is_image_type (content_type response)) then inl InvalidImageError
  else
    let response := get url in
    if negb (String.eqb (reason response) "OK") then inl (HTTPException (status response))
    else inr (body response).

End FetchEmote.

End Fetch.

(** ** The [Meta] cog ([emote_collector/extensions/meta.py]) *)

Module Meta.

(** U+200C ZERO WIDTH NON-JOINER, as UTF-8. *)
Definition zero_width_non_joiner : string :=
  String "226" (String "128" (String "140" EmptyString)).

(** [command.replace('@', '@\N{zero width non-joiner}')] in [help], for a
    command or category that is not found. *)
Definition command_name (command : string) : string :=
  replace_char "@" ("@" +:+ zero_width_non_joiner) command.

(** What [source] reads of the command object it found:
    [obj.callback.__module__], [obj.callback.__code__.co_filename] and the
    result of [inspect.getsourcelines]. *)
Record Command : Type := {
  callback_module : string;
  co_filename : string;
  firstlineno : Z;
  (** [len(lines)] *)
  lines : nat
}.

(** Reading a local name that no assignment has bound. *)
Inductive Failure : Type :=
  | UnboundLocalError (name : string).

(** A local variable: its value once an assignment has run. *)
Definition read_local (name : string) (binding : option string) : Failure + string :=
  match binding with
  | Some v => inr v
  | None => inl (UnboundLocalError name)
  end.

Section Source.

(** [self.__module__] *)
Variable own_module : string.
(** [os.path.relpath] *)
Variable relpath : string -> string.
(** [self.bot.config.get('repo')] *)
Variable repo : string.
Variable get_command : string -> option Command.

(** The link [source] builds for a command it found. *)
Definition source_link (obj : Command) : Failure + string :=
  let source_url := repo in
  let module := callback_module obj in
  let '(source_url, branch, location) :=
    if String.prefix (before_char "." own_module) module then
      (source_url, Some "master",
       Some (replace_char "\" "/" (relpath (co_filename obj))))
    else if String.prefix "discord" module then
      ("https://github.com/Rapptz/discord.py", Some "rewrite", None)
    else
      let '(source_url, branch) :=
        if String.prefix "jishaku" module
        then ("https://github.com/Gorialis/jishaku", Some "master")
        else if String.prefix "ben_cogs" module
        then ("https://github.com/bmintz/cogs", Some "master")
        else (source_url, None) in
      (source_url, branch, Some (replace_char "." "/" module +:+ ".py")) in
  match read_local "branch" branch with
  | inl e => inl e
  | inr branch =>
      match read_local "location" location with
      | inl e => inl e
      | inr location =>
          inr ("<" +:+ source_url +:+ "/blob/" +:+ branch +:+ "/" +:+ location
               +:+ "#L" +:+ pretty (firstlineno obj)
               +:+ "-L" +:+ pretty (firstlineno obj + Z.of_nat (lines obj) - 1)
               +:+ ">")
      end
  end.

(** The text [source] sends, or the error it stops with. *)
Definition source (command : option string) : Failure + string :=
  match command with
  | None => inr repo
  | Some command =>
      match get_command (replace_char "." " " command) with
      | None => inr "Could not find command."
      | Some obj => source_link obj
      end
  end.

End Source.

End Meta.

(** * Properties *)

Example lexer_sample :
  Lexer.lexer "a :x: b;y" =
  [ {| type := "TEXT"; value := "a" |}; {| type := "TEXT"; value := " " |};
    {| type := "EMOTE"; value := ":x:" |}; {| type := "TEXT"; value := " " |};
    {| type := "TEXT"; value := "b" |}; {| type := "TEXT"; value := ";" |};
    {| type := "TEXT"; value := "y" |} ].
Proof. reflexivity. Qed.

Example strip_sample : strip ":;" ":;x:;" = "x" /\ strip ":;" ":a:b:" = "a:b".
Proof. split; reflexivity. Qed.

(** ** Strings *)

Lemma append_cons (x : ascii) (a b : string) :
  String x a +:+ b = String x (a +:+ b).
Proof. reflexivity. Qed.

Lemma append_assoc (a b c : string) : (a +:+ b) +:+ c = a +:+ (b +:+ c).
Proof.
  induction a as [|x a IH]; [reflexivity|].
  rewrite !append_cons. now f_equal.
Qed.

Lemma append_empty_r (a : string) : a +:+ EmptyString = a.
Proof.
  induction a as [|x a IH]; [reflexivity|].
  rewrite append_cons. now f_equal.
Qed.

(** ** The tokenizer

    The tokens of the modelled tokenizer, put back together, are the input
    (the contract of section 4.1 of the specification). *)

Lemma substring_drop (n : nat) (s : string) :
  String.substring 0 n s +:+ string_drop n s = s.
Proof.
  revert s. induction n as [|n IH]; intros s.
  - now destruct s.
  - destruct s as [|c s]; [reflexivity|].
    cbn [String.substring string_drop]. rewrite append_cons. now f_equal.
Qed.

Lemma string_drop_0 (s : string) : string_drop 0 s = s.
Proof. now destruct s. Qed.

Lemma lex_from_join (s : string) :
  forall skip, join (value <$> Lexer.lex_from skip s) = string_drop skip s.
Proof.
  induction s as [|c rest IH]; intros skip.
  - now destruct skip.
  - destruct skip as [|k]; cbn [Lexer.lex_from string_drop]; [|apply IH].
    destruct (Lexer.symbol_length c rest) as [n|].
    + rewrite fmap_cons. cbn [value]. unfold join. cbn [fold_right].
      fold (join (value <$> Lexer.lex_from n rest)).
      rewrite IH, append_cons, substring_drop. reflexivity.
    + rewrite fmap_cons. cbn [value]. unfold join. cbn [fold_right].
      fold (join (value <$> Lexer.lex_from 0 rest)).
      rewrite IH, string_drop_0. reflexivity.
Qed.

Lemma lexer_roundtrip (text : string) : join (value <$> Lexer.lexer text) = text.
Proof. unfold Lexer.lexer. rewrite lex_from_join. apply string_drop_0. Qed.

(** ** The resolver loop *)

Section Resolver.

Variable lexer : string -> list Token.
Variable db : Database.

Lemma is_newline_not_emote toke1 : is_newline toke1 = true -> is_emote toke1 = false.
Proof.
  unfold is_newline, is_emote. intros [Ht _]%andb_true_iff.
  apply String.eqb_eq in Ht. now rewrite Ht.
Qed.

Lemma scan_step_quote out used toke1 :
  scan_step db quote_predicate (out, used) toke1 =
  (out +:+ quote_piece db toke1, used ∪ token_ids db toke1).
Proof.
  unfold scan_step, quote_predicate, quote_piece, token_ids, rendered, resolve, is_emote.
  destruct (String.eqb (type toke1) "EMOTE"); simpl.
  - destruct (get_emote db _); [reflexivity|].
    f_equal. symmetry. apply union_empty_r_L.
  - f_equal. symmetry. apply union_empty_r_L.
Qed.

Lemma scan_step_extract out used toke1 :
  scan_step db extract_predicate (out, used) toke1 =
  (out +:+ extract_piece db toke1, used ∪ token_ids db toke1).
Proof.
  unfold scan_step, extract_predicate, extract_piece.
  fold (is_newline toke1). fold (is_emote toke1).
  destruct (is_newline toke1) eqn:Hn; simpl.
  - unfold token_ids. rewrite (is_newline_not_emote _ Hn).
    f_equal. symmetry. apply union_empty_r_L.
  - unfold token_ids, rendered, resolve.
    destruct (is_emote toke1); simpl.
    + destruct (get_emote db _); [reflexivity|].
      f_equal. symmetry. apply union_empty_r_L.
    + rewrite append_empty_r. f_equal. symmetry. apply union_empty_r_L.
Qed.

Lemma join_cons (x : string) (l : list string) : join (x :: l) = x +:+ join l.
Proof. reflexivity. Qed.

Lemma resolved_ids_cons toke1 tokens :
  resolved_ids db (toke1 :: tokens) = token_ids db toke1 ∪ resolved_ids db tokens.
Proof. reflexivity. Qed.

(** A loop whose turns append a piece and add ids yields the pieces in
    token order and the union of the ids. *)
Lemma fold_pieces (predicate : Predicate) (piece : Token -> string) :
  (forall out used toke1,
      scan_step db predicate (out, used) toke1 =
      (out +:+ piece toke1, used ∪ token_ids db toke1)) ->
  forall tokens out used,
    fold_left (scan_step db predicate) tokens (out, used) =
    (out +:+ join (piece <$> tokens), used ∪ resolved_ids db tokens).
Proof.
  intros Hstep tokens. induction tokens as [|toke1 tokens IH]; intros out used.
  - cbn [fold_left]. rewrite fmap_nil. unfold join, resolved_ids. cbn [fold_right].
    rewrite append_empty_r, fmap_nil. cbn [union_list foldr].
    now rewrite union_empty_r_L.
  - cbn [fold_left]. rewrite Hstep, IH, fmap_cons, join_cons, resolved_ids_cons.
    rewrite append_assoc. f_equal. now rewrite (assoc_L (∪)).
Qed.

Lemma scan_quote content :
  scan lexer db quote_predicate content =
  (join (quote_piece db <$> lexer content), resolved_ids db (lexer content)).
Proof.
  unfold scan. rewrite (fold_pieces _ _ scan_step_quote). simpl.
  now rewrite union_empty_l_L.
Qed.

Lemma scan_extract content :
  scan lexer db extract_predicate content =
  (join (extract_piece db <$> lexer content), resolved_ids db (lexer content)).
Proof.
  unfold scan. rewrite (fold_pieces _ _ scan_step_extract). simpl.
  now rewrite union_empty_l_L.
Qed.

Lemma elem_of_resolved_ids tokens e :
  e ∈ resolved_ids db tokens <-> resolved_in db tokens e.
Proof.
  unfold resolved_in. induction tokens as [|toke1 tokens IH].
  - change (resolved_ids db []) with (∅ : gset Z).
    split; [intros H; now apply not_elem_of_empty in H | intros H; inversion H].
  - rewrite resolved_ids_cons, elem_of_union, IH, Exists_cons.
    apply or_iff_compat_r.
    unfold token_ids. destruct (is_emote toke1).
    + destruct (resolve db toke1) as [emote|].
      * rewrite elem_of_singleton. split.
        -- intros ->. eauto.
        -- intros [_ (emote' & [= <-] & <-)]. reflexivity.
      * split; [intros H; now apply not_elem_of_empty in H|].
        intros [_ (emote' & [=] & _)].
    + split; [intros H; now apply not_elem_of_empty in H|].
      intros [[=] _].
Qed.

Lemma none_resolves_ids tokens :
  none_resolves db tokens -> resolved_ids db tokens = ∅.
Proof.
  unfold none_resolves. induction 1 as [|toke1 tokens H _ IH].
  - reflexivity.
  - rewrite resolved_ids_cons, IH, union_empty_r_L. unfold token_ids.
    destruct (is_emote toke1); [|reflexivity]. now rewrite H.
Qed.

Lemma all_resolve_ids tokens :
  all_resolve db tokens -> existsb is_emote tokens = true ->
  resolved_ids db tokens ≠ ∅.
Proof.
  unfold all_resolve. induction 1 as [|toke1 tokens H _ IH].
  - discriminate.
  - cbn [existsb]. intros Hex. rewrite resolved_ids_cons. unfold token_ids.
    destruct (is_emote toke1) eqn:He.
    + destruct (H eq_refl) as [emote ->]. set_solver.
    + specialize (IH Hex). set_solver.
Qed.

Lemma no_emote_token_ids tokens :
  existsb is_emote tokens = false -> resolved_ids db tokens = ∅.
Proof.
  induction tokens as [|toke1 tokens IH].
  - reflexivity.
  - cbn [existsb]. intros [He Hex]%orb_false_iff.
    rewrite resolved_ids_cons, (IH Hex), union_empty_r_L.
    unfold token_ids. now rewrite He.
Qed.

End Resolver.

(** ** Running the extraction *)

Lemma add_usages_nil w : add_usages [] w = w.
Proof. destruct w. unfold add_usages. simpl. now rewrite app_nil_r. Qed.

Lemma add_usages_cons u l w : add_usages l (add_usage u w) = add_usages (u :: l) w.
Proof. unfold add_usages, add_usage. simpl. now rewrite <- app_assoc. Qed.

Lemma for_each_log (l : list Z) (user_id : Z) (w : World) :
  for_each l (fun emote => log_emote_use emote user_id) w =
  (Ok tt, add_usages ((fun emote => (emote, user_id)) <$> l) w).
Proof.
  revert w. induction l as [|e l IH]; intros w.
  - cbn [for_each]. rewrite fmap_nil, add_usages_nil. reflexivity.
  - cbn [for_each]. unfold bind at 1. unfold log_emote_use at 1.
    rewrite IH, fmap_cons, add_usages_cons. reflexivity.
Qed.

Section Extraction.

Variable lexer : string -> list Token.
Variable clean_content : Message -> string -> string.
Variable fix_first_line : string -> string.
Variable db : Database.

Lemma emotes_used_quote text :
  emotes_used lexer db quote_predicate text = resolved_ids db (lexer text).
Proof. unfold emotes_used. now rewrite scan_quote. Qed.

Lemma emotes_used_extract text :
  emotes_used lexer db extract_predicate text = resolved_ids db (lexer text).
Proof. unfold emotes_used. now rewrite scan_extract. Qed.

Lemma has_emotes_quote text :
  has_emotes lexer db quote_predicate text =
  bool_decide (resolved_ids db (lexer text) ≠ ∅).
Proof. unfold has_emotes. now rewrite emotes_used_quote. Qed.

Lemma has_emotes_extract text :
  has_emotes lexer db extract_predicate text =
  bool_decide (resolved_ids db (lexer text) ≠ ∅).
Proof. unfold has_emotes. now rewrite emotes_used_extract. Qed.

Lemma result_quote text :
  result lexer db quote_predicate text =
  if bool_decide (resolved_ids db (lexer text) ≠ ∅)
  then join (quote_piece db <$> lexer text) else text.
Proof. unfold result. now rewrite has_emotes_quote, scan_quote. Qed.

Lemma result_extract text :
  result lexer db extract_predicate text =
  if bool_decide (resolved_ids db (lexer text) ≠ ∅)
  then join (extract_piece db <$> lexer text) else text.
Proof. unfold result. now rewrite has_emotes_extract, scan_extract. Qed.

(** What a call of [_extract_emotes] returns and leaves behind. *)
Lemma _extract_emotes_run message content_arg predicate log_usage w :
  let text := default (content message) content_arg in
  _extract_emotes lexer clean_content db message content_arg predicate log_usage w =
  (Ok (clean_content message (result lexer db predicate text),
       has_emotes lexer db predicate text),
   if log_usage
   then add_usages ((fun emote => (emote, user_id (author message)))
                      <$> elements (emotes_used lexer db predicate text)) w
   else w).
Proof.
  intros text. unfold _extract_emotes. fold text. unfold bind.
  destruct log_usage.
  - now rewrite for_each_log.
  - reflexivity.
Qed.

Lemma extract_emotes_run message content_arg log_usage w :
  let text := default (content message) content_arg in
  extract_emotes lexer clean_content fix_first_line db message content_arg log_usage w =
  (Ok (fix_first_line (clean_content message (result lexer db extract_predicate text)),
       has_emotes lexer db extract_predicate text),
   if log_usage
   then add_usages ((fun emote => (emote, user_id (author message)))
                      <$> elements (resolved_ids db (lexer text))) w
   else w).
Proof.
  intros text. unfold extract_emotes, bind. rewrite _extract_emotes_run.
  fold text. now rewrite emotes_used_extract.
Qed.

End Extraction.

(** ** New messages *)

Section NewMessage.

Variable lexer : string -> list Token.
Variable clean_content : Message -> string -> string.
Variable fix_first_line : string -> string.
Variable db : Database.
Variable bot : Bot.
Variable discord : Discord.

Local Abbreviation on_message' :=
  (on_message lexer clean_content fix_first_line db bot discord).

Lemma on_message_silent message w :
  auto_response db bot message = false -> on_message' message w = (Ok tt, w).
Proof.
  unfold auto_response, on_message, guild.
  destruct (should_reply bot message); [|reflexivity].
  destruct (context_valid bot message); [reflexivity|].
  destruct (channel_guild (channel message)) as [g|]; cbn [negb andb fmap option_fmap option_map].
  - destruct (external_emojis _); [|reflexivity]. cbn [negb andb].
    destruct (get_state db _ _); [|reflexivity]. cbn [negb andb].
    destruct (get_user_blacklist db _); [reflexivity|].
    rewrite bool_decide_eq_false. intros H. now destruct H.
  - destruct (get_state db _ _); [|reflexivity]. cbn [negb andb].
    destruct (get_user_blacklist db _); [reflexivity|].
    rewrite bool_decide_eq_false. intros H. now destruct H.
Qed.

Lemma on_message_run message w :
  auto_response db bot message = true ->
  on_message' message w =
  let ids := resolved_ids db (lexer (content message)) in
  let logged :=
    add_usages ((fun emote => (emote, user_id (author message))) <$> elements ids) w in
  if bool_decide (ids ≠ ∅) then
    (let* sent :=
       send bot discord (channel message)
            (fix_first_line
               (clean_content message (join (extract_piece db <$> lexer (content message))))) in
     replies_setitem (message_id message) sent) logged
  else (Ok tt, logged).
Proof.
  unfold auto_response, on_message, guild.
  destruct (should_reply bot message); [|discriminate].
  destruct (context_valid bot message); [discriminate|].
  assert (Hrest : forall w0,
    (let* (reply, has_emotes) :=
       extract_emotes lexer clean_content fix_first_line db message None true in
     if negb has_emotes then ret tt
     else let* sent := send bot discord (channel message) reply in
          replies_setitem (message_id message) sent) w0 =
    let ids := resolved_ids db (lexer (content message)) in
    let logged :=
      add_usages ((fun emote => (emote, user_id (author message))) <$> elements ids) w0 in
    if bool_decide (ids ≠ ∅) then
      (let* sent :=
         send bot discord (channel message)
              (fix_first_line
                 (clean_content message (join (extract_piece db <$> lexer (content message))))) in
       replies_setitem (message_id message) sent) logged
    else (Ok tt, logged)).
  { intros w0. unfold bind at 1. rewrite extract_emotes_run.
    cbn [default from_option]. rewrite result_extract, has_emotes_extract.
    cbv zeta. destruct (bool_decide _); reflexivity. }
  destruct (channel_guild (channel message)) as [g|]; cbn [negb andb fmap option_fmap option_map].
  - destruct (external_emojis _); [|discriminate]. cbn [negb andb].
    destruct (get_state db _ _); [|discriminate]. cbn [negb andb].
    destruct (get_user_blacklist db _); [discriminate|].
    intros _. apply Hrest.
  - destruct (get_state db _ _); [|discriminate]. cbn [negb andb].
    destruct (get_user_blacklist db _); [discriminate|].
    intros _. apply Hrest.
Qed.

End NewMessage.

(** ** Output of the resolver *)

(** C1, as amended. When every emote token of the input resolves and there
    is at least one, the text selected by [_extract_emotes] is the
    concatenation, in token order, of what each token contributes: for an
    emote token the rendered form of its emote; for any other token its own
    text under the predicate of [quote_emotes], and under the predicate of
    [extract_emotes] its text if it is a newline and nothing otherwise.
    Lookups are awaited one token at a time, so their completion order is
    the token order.  Without any emote token the input text is selected. *)
Theorem resolver_keeps_token_order
    (lexer : string -> list Token) (db : Database) (text : string) :
  all_resolve db (lexer text) ->
  (existsb is_emote (lexer text) = true ->
     result lexer db quote_predicate text = join (quote_piece db <$> lexer text) /\
     result lexer db extract_predicate text = join (extract_piece db <$> lexer text)) /\
  (existsb is_emote (lexer text) = false ->
     result lexer db quote_predicate text = text /\
     result lexer db extract_predicate text = text).
Proof.
  intros Hall. rewrite result_quote, result_extract. split; intros Hex.
  - pose proof (all_resolve_ids db _ Hall Hex) as Hne.
    rewrite bool_decide_eq_true_2 by exact Hne. split; reflexivity.
  - rewrite (no_emote_token_ids db _ Hex).
    rewrite bool_decide_eq_false_2 by (intros H; now apply H). split; reflexivity.
Qed.

Lemma sample_tokens_resolve : all_resolve Sample.db (Lexer.lexer "a :x: b :y: c").
Proof.
  unfold all_resolve. vm_compute.
  repeat constructor; intros; try discriminate; eexists; reflexivity.
Qed.

Lemma resolver_keeps_token_order_witness :
  all_resolve Sample.db (Lexer.lexer "a :x: b :y: c") /\
  result Lexer.lexer Sample.db quote_predicate "a :x: b :y: c" = "a <:x:1> b <:y:2> c" /\
  result Lexer.lexer Sample.db extract_predicate "a :x: b :y: c" = "<:x:1><:y:2>".
Proof.
  split; [exact sample_tokens_resolve|].
  destruct (resolver_keeps_token_order Lexer.lexer Sample.db "a :x: b :y: c"
              sample_tokens_resolve) as [H _].
  destruct (H eq_refl) as [Hq He]. rewrite Hq, He. split; reflexivity.
Defined.

(** C1 as stated fails for the predicate of [extract_emotes]: with both
    emotes resolvable, "a :x: b :y: c" yields the two rendered forms in
    order and none of the text around them. *)
Lemma symbol_only_output_drops_text :
  all_resolve Sample.db (Lexer.lexer "a :x: b :y: c") /\
  result Lexer.lexer Sample.db extract_predicate "a :x: b :y: c" = "<:x:1><:y:2>" /\
  result Lexer.lexer Sample.db extract_predicate "a :x: b :y: c" <> "a <:x:1> b <:y:2> c" /\
  extract_emotes Lexer.lexer Sample.clean_content Sample.fix_first_line Sample.db
    (Sample.said 1 "a :x: b :y: c") None false (Sample.world 4 [])
  = (Ok ("<:x:1><:y:2>", true), Sample.world 4 []).
Proof.
  split; [exact sample_tokens_resolve|].
  vm_compute. repeat split. discriminate.
Qed.

(** C2, as amended. When no emote token of the input resolves (there is
    none, or every lookup fails), the text selected by [_extract_emotes] is
    the [content] it was given, character for character, not the buffer
    rebuilt from the tokens.  That text is handed to [clean_content] on
    return: [_extract_emotes] and [quote_emotes] return
    [clean_content(message, content)], [extract_emotes] returns
    [fix_first_line] of it, the flag is false and nothing is logged.  The
    returned text is therefore the input itself wherever [clean_content]
    leaves it alone. *)
Theorem unresolved_input_is_selected_unchanged
    (lexer : string -> list Token) (clean_content : Message -> string -> string)
    (fix_first_line : string -> string)
    (db : Database) (message : Message) (content_arg : option string)
    (log_usage : bool) (w : World) :
  let text := default (content message) content_arg in
  none_resolves db (lexer text) ->
  result lexer db extract_predicate text = text /\
  result lexer db quote_predicate text = text /\
  _extract_emotes lexer clean_content db message content_arg extract_predicate log_usage w
    = (Ok (clean_content message text, false), w) /\
  _extract_emotes lexer clean_content db message content_arg quote_predicate log_usage w
    = (Ok (clean_content message text, false), w) /\
  extract_emotes lexer clean_content fix_first_line db message content_arg log_usage w
    = (Ok (fix_first_line (clean_content message text), false), w) /\
  quote_emotes lexer clean_content db message content_arg log_usage w
    = (Ok (clean_content message text, false), w) /\
  (clean_content message text = text ->
   quote_emotes lexer clean_content db message content_arg log_usage w
     = (Ok (text, false), w)).
Proof.
  intros text Hnone. pose proof (none_resolves_ids db _ Hnone) as Hids.
  assert (Hfalse : bool_decide (resolved_ids db (lexer text) ≠ ∅) = false).
  { rewrite Hids. apply bool_decide_eq_false_2. intros H. now apply H. }
  assert (He : result lexer db extract_predicate text = text)
    by (now rewrite result_extract, Hfalse).
  assert (Hq : result lexer db quote_predicate text = text)
    by (now rewrite result_quote, Hfalse).
  assert (Hrun_e :
    _extract_emotes lexer clean_content db message content_arg extract_predicate
      log_usage w = (Ok (clean_content message text, false), w)).
  { rewrite _extract_emotes_run. fold text.
    rewrite He, has_emotes_extract, Hfalse, emotes_used_extract, Hids, elements_empty.
    rewrite fmap_nil, add_usages_nil. now destruct log_usage. }
  assert (Hrun_q :
    _extract_emotes lexer clean_content db message content_arg quote_predicate
      log_usage w = (Ok (clean_content message text, false), w)).
  { rewrite _extract_emotes_run. fold text.
    rewrite Hq, has_emotes_quote, Hfalse, emotes_used_quote, Hids, elements_empty.
    rewrite fmap_nil, add_usages_nil. now destruct log_usage. }
  split; [exact He|]. split; [exact Hq|]. split; [exact Hrun_e|].
  split; [exact Hrun_q|]. split; [|split].
  - unfold extract_emotes, bind. now rewrite Hrun_e.
  - exact Hrun_q.
  - intros Hclean. unfold quote_emotes. now rewrite Hrun_q, Hclean.
Qed.

Lemma unknown_does_not_resolve : none_resolves Sample.db (Lexer.lexer "say :unknown:").
Proof.
  unfold none_resolves. vm_compute.
  repeat constructor; intros; try discriminate; reflexivity.
Qed.

Lemma unresolved_input_is_selected_unchanged_witness :
  none_resolves Sample.db (Lexer.lexer "say :unknown:") /\
  result Lexer.lexer Sample.db extract_predicate "say :unknown:" = "say :unknown:" /\
  result Lexer.lexer Sample.db quote_predicate "say :unknown:" = "say :unknown:".
Proof.
  split; [exact unknown_does_not_resolve|].
  destruct (unresolved_input_is_selected_unchanged Lexer.lexer Sample.clean_content
              Sample.fix_first_line
              Sample.db (Sample.said 1 "say :unknown:") None false (Sample.world 4 [])
              unknown_does_not_resolve) as (He & Hq & _).
  split; [exact He | exact Hq].
Defined.

(** C2 as stated fails for the text that is returned: with a
    [clean_content] that defuses mentions, a message that mentions everyone
    and has no resolvable emote comes back with a zero width space after
    its at sign, not byte for byte. *)
Lemma sanitised_output_differs_from_input :
  none_resolves Sample.db (Lexer.lexer "@everyone :unknown:") /\
  quote_emotes Lexer.lexer defusing_clean_content Sample.db
    (Sample.said 1 "@everyone :unknown:") None false (Sample.world 4 [])
  = (Ok ("@" +:+ zero_width_space +:+ "everyone :unknown:", false), Sample.world 4 []) /\
  "@" +:+ zero_width_space +:+ "everyone :unknown:" <> "@everyone :unknown:".
Proof.
  split.
  - unfold none_resolves. vm_compute.
    repeat constructor; intros; try discriminate; reflexivity.
  - vm_compute. split; [reflexivity|discriminate].
Qed.

(** C3. A token that the predicate accepts and whose lookup fails leaves its
    own text in the buffer and the used set as it was.  Hence a new message
    none of whose emote tokens resolves has an empty used set, and
    [on_message] returns without sending anything, touching the reply
    cache or logging a use. *)
Theorem not_found_is_literal_and_unused
    (lexer : string -> list Token) (clean_content : Message -> string -> string)
    (fix_first_line : string -> string) (db : Database) (bot : Bot)
    (discord : Discord) :
  (forall (predicate : Predicate) toke1 out out' (used : gset Z),
      predicate toke1 out = (true, out') ->
      resolve db toke1 = None ->
      scan_step db predicate (out, used) toke1 = (out' +:+ value toke1, used)) /\
  (forall message w,
      none_resolves db (lexer (content message)) ->
      emotes_used lexer db extract_predicate (content message) = ∅ /\
      on_message lexer clean_content fix_first_line db bot discord message w = (Ok tt, w)).
Proof.
  split.
  - intros predicate toke1 out out' used Hp Hr. unfold scan_step.
    rewrite Hp. cbn [negb]. unfold resolve in Hr. now rewrite Hr.
  - intros message w Hnone. pose proof (none_resolves_ids db _ Hnone) as Hids.
    split; [now rewrite emotes_used_extract|].
    destruct (auto_response db bot message) eqn:Hauto.
    + rewrite on_message_run by exact Hauto. cbv zeta. rewrite Hids.
      rewrite bool_decide_eq_false_2 by (intros H; now apply H).
      now rewrite elements_empty, fmap_nil, add_usages_nil.
    + now apply on_message_silent.
Qed.

Lemma not_found_is_literal_and_unused_witness :
  none_resolves Sample.db (Lexer.lexer "say :unknown:") /\
  on_message Lexer.lexer Sample.clean_content Sample.fix_first_line Sample.db
             Sample.bot (Sample.discord []) (Sample.said 1 "say :unknown:")
             (Sample.world 4 [])
  = (Ok tt, Sample.world 4 []).
Proof.
  split; [exact unknown_does_not_resolve|].
  apply (proj2 (not_found_is_literal_and_unused Lexer.lexer Sample.clean_content
                  Sample.fix_first_line Sample.db Sample.bot (Sample.discord []))
               (Sample.said 1 "say :unknown:") (Sample.world 4 [])
               unknown_does_not_resolve).
Defined.

(** ** The reply cache *)

Section CacheFacts.

Context {V : Type}.
Implicit Types (d : LRUDict.t V) (l : list (Z * V)) (k j : Z).

Lemma find_remove_eq k l : List.find (LRUDict.is_key k) (LRUDict.remove k l) = None.
Proof.
  induction l as [|kv l IH]; [reflexivity|].
  unfold LRUDict.remove in *. cbn [List.filter].
  destruct (LRUDict.is_key k kv) eqn:Hk; cbn [negb]; [exact IH|].
  cbn [List.find]. now rewrite Hk.
Qed.

Lemma find_remove_ne k j l :
  j <> k ->
  List.find (LRUDict.is_key j) (LRUDict.remove k l) = List.find (LRUDict.is_key j) l.
Proof.
  intros Hne. induction l as [|kv l IH]; [reflexivity|].
  unfold LRUDict.remove in *. cbn [List.filter List.find].
  destruct (LRUDict.is_key k kv) eqn:Hk; cbn [negb].
  - destruct (LRUDict.is_key j kv) eqn:Hj; [|exact IH].
    unfold LRUDict.is_key in *. lia.
  - cbn [List.find]. now rewrite IH.
Qed.

Lemma find_app_last k j v l :
  List.find (LRUDict.is_key j) (l ++ [(k, v)]) =
  match List.find (LRUDict.is_key j) l with
  | Some kv => Some kv
  | None => if Z.eqb k j then Some (k, v) else None
  end.
Proof.
  induction l as [|kv l IH]; [reflexivity|].
  cbn [app List.find]. now destruct (LRUDict.is_key j kv).
Qed.

Lemma contains_peek k d :
  LRUDict.contains k d = bool_decide (is_Some (LRUDict.peek k d)).
Proof.
  unfold LRUDict.contains, LRUDict.peek. destruct d as [n l]. cbn [LRUDict.items].
  induction l as [|kv l IH].
  - reflexivity.
  - cbn [List.existsb List.find]. destruct (LRUDict.is_key k kv); cbn [orb].
    + reflexivity.
    + exact IH.
Qed.

Lemma peek_Some_contains k d v : LRUDict.peek k d = Some v -> LRUDict.contains k d = true.
Proof. intros H. rewrite contains_peek, H. apply bool_decide_eq_true_2. now eexists. Qed.

Lemma peek_None_contains k d : LRUDict.peek k d = None -> LRUDict.contains k d = false.
Proof.
  intros H. rewrite contains_peek, H. apply bool_decide_eq_false_2. intros [? [=]].
Qed.

Lemma peek_remove_eq k n l : LRUDict.peek k (LRUDict.mk n (LRUDict.remove k l)) = None.
Proof. unfold LRUDict.peek. cbn [LRUDict.items]. now rewrite find_remove_eq. Qed.

Lemma peek_remove_ne k j n l :
  j <> k ->
  LRUDict.peek j (LRUDict.mk n (LRUDict.remove k l)) = LRUDict.peek j (LRUDict.mk n l).
Proof.
  intros H. unfold LRUDict.peek. cbn [LRUDict.items]. now rewrite find_remove_ne.
Qed.

Lemma remove_app k l1 l2 :
  LRUDict.remove k (l1 ++ l2) = LRUDict.remove k l1 ++ LRUDict.remove k l2.
Proof. unfold LRUDict.remove. apply List.filter_app. Qed.

Lemma remove_idem k l : LRUDict.remove k (LRUDict.remove k l) = LRUDict.remove k l.
Proof.
  induction l as [|kv l IH]; [reflexivity|].
  unfold LRUDict.remove in *. cbn [List.filter].
  destruct (LRUDict.is_key k kv) eqn:Hk; cbn [negb]; [exact IH|].
  cbn [List.filter]. rewrite Hk. cbn [negb]. now rewrite IH.
Qed.

Lemma remove_refreshed k v l :
  LRUDict.remove k (LRUDict.remove k l ++ [(k, v)]) = LRUDict.remove k l.
Proof.
  rewrite remove_app, remove_idem. unfold LRUDict.remove at 2. cbn [List.filter].
  unfold LRUDict.is_key. cbn [fst]. rewrite Z.eqb_refl. cbn [negb].
  apply app_nil_r.
Qed.

Lemma remove_absent k l :
  List.find (LRUDict.is_key k) l = None -> LRUDict.remove k l = l.
Proof.
  induction l as [|kv l IH]; [reflexivity|].
  unfold LRUDict.remove in *. cbn [List.find List.filter].
  destruct (LRUDict.is_key k kv); [discriminate|]. cbn [negb].
  intros H. now rewrite IH.
Qed.






End CacheFacts.

(** ** Deleted messages *)

Lemma without_keys_nil {V} (d : LRUDict.t V) : without_keys [] d = d.
Proof.
  destruct d as [n l]. unfold without_keys. cbn [LRUDict.size LRUDict.items].
  f_equal. induction l as [|kv l IH]; [reflexivity|].
  cbn [List.filter List.existsb negb] in *. now f_equal.
Qed.

Lemma without_keys_cons {V} k ks n (l : list (Z * V)) :
  without_keys ks (LRUDict.mk n (LRUDict.remove k l)) = without_keys (k :: ks) (LRUDict.mk n l).
Proof.
  unfold without_keys. cbn [LRUDict.size LRUDict.items]. f_equal.
  induction l as [|kv l IH]; [reflexivity|].
  unfold LRUDict.remove in *. cbn [List.filter List.existsb].
  unfold LRUDict.is_key at 1.
  destruct (Z.eqb (fst kv) k); cbn [negb orb]; [exact IH|].
  cbn [List.filter]. destruct (negb _); [now rewrite IH | exact IH].
Qed.


Lemma delete_calls_remove k ks n (l : list (Z * Message)) :
  k ∉ ks ->
  delete_calls ks (LRUDict.mk n (LRUDict.remove k l)) = delete_calls ks (LRUDict.mk n l).
Proof.
  intros Hk. unfold delete_calls. induction ks as [|j ks IH]; [reflexivity|].
  apply not_elem_of_cons in Hk as [Hne Hk].
  cbn [omap list_omap]. rewrite peek_remove_ne by congruence. now rewrite IH.
Qed.

Section Deletion.

Variable discord : Discord.

Lemma delete_reply_run k w :
  delete_reply discord k w =
  match LRUDict.peek k (replies w) with
  | Some reply =>
      (match delete_outcome discord (message_id reply) with
       | Some e => if is_HTTPException e then Ok tt else Raise e
       | None => Ok tt
       end,
       add_call (Delete (message_id reply))
         (set_replies (LRUDict.mk (LRUDict.size (replies w))
                                  (LRUDict.remove k (LRUDict.items (replies w)))) w))
  | None => (Ok tt, w)
  end.
Proof.
  unfold delete_reply, replies_pop, LRUDict.pop.
  destruct (LRUDict.peek k (replies w)) as [reply|]; [|reflexivity].
  unfold suppress, delete. destruct (delete_outcome discord _) as [e|]; [|reflexivity].
  now destruct (is_HTTPException e).
Qed.

(** With failures of that kind only, [delete_reply] returns normally. *)
Lemma delete_reply_ok k ks w :
  k ∈ ks -> delete_failures_are_http discord ks (replies w) ->
  fst (delete_reply discord k w) = Ok tt.
Proof.
  intros Hk Hhttp. rewrite delete_reply_run.
  destruct (LRUDict.peek k (replies w)) as [reply|] eqn:Hpeek; [|reflexivity].
  cbn [fst]. destruct (delete_outcome discord (message_id reply)) as [e|] eqn:He;
    [|reflexivity].
  now rewrite (Hhttp k reply e Hk Hpeek He).
Qed.

Lemma delete_reply_state k w :
  snd (delete_reply discord k w) =
  match LRUDict.peek k (replies w) with
  | Some reply =>
      add_call (Delete (message_id reply))
        (set_replies (LRUDict.mk (LRUDict.size (replies w))
                                 (LRUDict.remove k (LRUDict.items (replies w)))) w)
  | None => w
  end.
Proof.
  rewrite delete_reply_run. now destruct (LRUDict.peek k (replies w)).
Qed.

(** What holds before the loop and is kept by every turn holds after it,
    wherever the loop ends. *)
Lemma for_each_invariant {A} (P : World -> Prop) (body : A -> M unit) xs :
  (forall x w, P w -> P (snd (body x w))) ->
  forall w, P w -> P (snd (for_each xs body w)).
Proof.
  intros Hstep. induction xs as [|x xs IH]; intros w Hw; [exact Hw|].
  cbn [for_each]. unfold bind. specialize (Hstep x w Hw).
  destruct (body x w) as [[[]|e] w1]; cbn [snd] in *; [now apply IH|exact Hstep].
Qed.

Lemma peek_None_remove {V} k (d : LRUDict.t V) :
  LRUDict.peek k d = None -> LRUDict.remove k (LRUDict.items d) = LRUDict.items d.
Proof.
  unfold LRUDict.peek. intros H. apply remove_absent.
  now destruct (List.find _ _).
Qed.

Lemma delete_failures_are_http_tail k ks n (l : list (Z * Message)) :
  k ∉ ks ->
  delete_failures_are_http discord (k :: ks) (LRUDict.mk n l) ->
  delete_failures_are_http discord ks (LRUDict.mk n (LRUDict.remove k l)).
Proof.
  intros Hk Hhttp j reply e Hj Hpeek He.
  apply (Hhttp j reply e); [now apply list_elem_of_further| |exact He].
  rewrite <- Hpeek. symmetry. apply peek_remove_ne. intros ->. contradiction.
Qed.

(** Deleting the replies of a duplicate-free run of ids, one after the
    other, when no delete request fails with anything but an
    [HTTPException]. *)
Lemma for_each_delete_reply ks :
  NoDup ks ->
  forall w,
    delete_failures_are_http discord ks (replies w) ->
    for_each ks (delete_reply discord) w =
    (Ok tt,
     {| replies := without_keys ks (replies w);
        usage := usage w;
        calls := calls w ++ delete_calls ks (replies w) |}).
Proof.
  induction 1 as [|k ks Hk _ IH]; intros w Hhttp.
  - cbn [for_each]. unfold ret. f_equal. destruct w as [d u c].
    cbn [replies usage calls]. rewrite without_keys_nil.
    unfold delete_calls. cbn [omap list_omap]. now rewrite app_nil_r.
  - cbn [for_each]. unfold bind.
    pose proof (delete_reply_ok k (k :: ks) w (list_elem_of_here _ _) Hhttp) as Hok.
    pose proof (delete_reply_state k w) as Hstate.
    destruct (delete_reply discord k w) as [r w1]. cbn [fst snd] in Hok, Hstate.
    subst r w1.
    destruct w as [[n l] u c]. cbn [replies LRUDict.size LRUDict.items] in *.
    unfold delete_calls at 1. cbn [omap list_omap]. fold (delete_calls ks (LRUDict.mk n l)).
    destruct (LRUDict.peek k (LRUDict.mk n l)) as [reply|] eqn:Hpeek.
    + rewrite IH.
      2: { cbn [replies set_replies add_call].
           now apply delete_failures_are_http_tail. }
      unfold add_call, set_replies. cbn [replies usage calls].
      rewrite without_keys_cons, delete_calls_remove by exact Hk.
      cbn [fmap option_fmap option_map]. now rewrite <- app_assoc.
    + rewrite IH.
      2: { pose proof (delete_failures_are_http_tail k ks n l Hk Hhttp) as Htail.
           pose proof (peek_None_remove k _ Hpeek) as Hrm. cbn [LRUDict.items] in Hrm.
           cbn [replies]. now rewrite Hrm in Htail. }
      cbn [replies usage calls fmap option_fmap option_map].
      rewrite <- without_keys_cons.
      pose proof (peek_None_remove k _ Hpeek) as Hrm. cbn [LRUDict.items] in Hrm.
      now rewrite Hrm.
Qed.


End Deletion.


Lemma sample_failures_are_http gone ks d :
  delete_failures_are_http (Sample.discord gone) ks d.
Proof.
  intros k reply e _ _ He. cbn in He.
  destruct (List.existsb _ gone); [|discriminate He].
  injection He as <-. reflexivity.
Qed.



(** ** Edited messages *)

Section Edits.

Variable lexer : string -> list Token.
Variable clean_content : Message -> string -> string.
Variable fix_first_line : string -> string.
Variable db : Database.
Variable bot : Bot.
Variable discord : Discord.

Local Abbreviation on_raw_message_edit' :=
  (on_raw_message_edit lexer clean_content fix_first_line db bot discord).

(** The text [extract_emotes] composes for the edited message. *)
Local Abbreviation edited_text payload text :=
  (fix_first_line
     (clean_content (message_of_payload bot payload text)
                    (result lexer db extract_predicate text))).

Lemma on_raw_message_edit_ignored payload w :
  LRUDict.peek (payload_message_id payload) (replies w) = None \/
  data_content (data payload) = None ->
  on_raw_message_edit' payload w = (Ok tt, w).
Proof.
  intros H. unfold on_raw_message_edit, bind, replies_contains.
  destruct (data_content (data payload)) as [text|]; [|reflexivity].
  destruct H as [H|[=]]. now rewrite (peek_None_contains _ _ H).
Qed.

Lemma on_raw_message_edit_run payload w reply text :
  LRUDict.peek (payload_message_id payload) (replies w) = Some reply ->
  data_content (data payload) = Some text ->
  let k := payload_message_id payload in
  let rest := LRUDict.remove k (LRUDict.items (replies w)) in
  let refreshed :=
    set_replies (LRUDict.mk (LRUDict.size (replies w)) (rest ++ [(k, reply)])) w in
  on_raw_message_edit' payload w =
  if negb (has_emotes lexer db extract_predicate text) then
    delete discord reply (set_replies (LRUDict.mk (LRUDict.size (replies w)) rest) w)
  else if String.eqb (edited_text payload text) (content reply) then (Ok tt, refreshed)
  else edit discord k reply (edited_text payload text) refreshed.
Proof.
  intros Hpeek Htext k rest refreshed.
  unfold on_raw_message_edit. rewrite Htext. unfold bind at 1. unfold replies_contains.
  rewrite (peek_Some_contains _ _ _ Hpeek). cbn [negb].
  unfold bind at 1. rewrite extract_emotes_run. cbn [default from_option content message_of_payload].
  unfold bind at 1. unfold replies_getitem, LRUDict.getitem. rewrite Hpeek.
  fold k rest refreshed.
  destruct (has_emotes lexer db extract_predicate text); cbn [negb];
    [now destruct (String.eqb _ _)|].
  unfold bind, replies_delitem, LRUDict.delitem.
  assert (Hc : LRUDict.contains k (replies refreshed) = true).
  { apply (peek_Some_contains _ _ reply). unfold refreshed, LRUDict.peek.
    cbn [replies set_replies LRUDict.items]. rewrite find_app_last.
    subst rest. rewrite find_remove_eq, Z.eqb_refl. reflexivity. }
  rewrite Hc. unfold refreshed. cbn [replies set_replies LRUDict.items LRUDict.size].
  subst rest. rewrite remove_refreshed. reflexivity.
Qed.

End Edits.

Lemma new_calls_app before after l :
  calls after = calls before ++ l -> new_calls before after = l.
Proof. intros H. unfold new_calls. rewrite H. apply drop_app_length. Qed.

Lemma new_calls_same before after :
  calls after = calls before -> new_calls before after = [].
Proof.
  intros H. apply new_calls_app. now rewrite app_nil_r.
Qed.

Lemma peek_refreshed {V} k (d : LRUDict.t V) v j :
  LRUDict.peek k d = Some v ->
  LRUDict.peek j (LRUDict.mk (LRUDict.size d)
                    (LRUDict.remove k (LRUDict.items d) ++ [(k, v)]))
  = LRUDict.peek j d.
Proof.
  intros Hk. unfold LRUDict.peek in *. cbn [LRUDict.items]. rewrite find_app_last.
  destruct (decide (j = k)) as [->|Hne].
  - rewrite find_remove_eq, Z.eqb_refl.
    destruct (List.find (LRUDict.is_key k) (LRUDict.items d)) as [[k' v']|] eqn:Hf;
      [|discriminate].
    cbn in Hk. injection Hk as ->. reflexivity.
  - rewrite find_remove_ne by exact Hne.
    destruct (List.find (LRUDict.is_key j) _); [reflexivity|].
    destruct (Z.eqb_spec k j); [congruence|reflexivity].
Qed.

Section EditProperties.

Variable lexer : string -> list Token.
Variable clean_content : Message -> string -> string.
Variable fix_first_line : string -> string.
Variable db : Database.
Variable bot : Bot.
Variable discord : Discord.

Local Abbreviation on_raw_message_edit' :=
  (on_raw_message_edit lexer clean_content fix_first_line db bot discord).

(** An edit that leaves no emote: the entry goes first, then one delete
    request is sent, and its failure is the outcome of the handler. *)
Lemma edit_without_emotes_run payload w reply text :
  LRUDict.peek (payload_message_id payload) (replies w) = Some reply ->
  data_content (data payload) = Some text ->
  has_emotes lexer db extract_predicate text = false ->
  on_raw_message_edit' payload w =
  (match delete_outcome discord (message_id reply) with
   | None => Ok tt
   | Some e => Raise e
   end,
   {| replies := LRUDict.mk (LRUDict.size (replies w))
                   (LRUDict.remove (payload_message_id payload) (LRUDict.items (replies w)));
      usage := usage w;
      calls := calls w ++ [Delete (message_id reply)] |}).
Proof.
  intros Hpeek Htext Hno.
  rewrite (on_raw_message_edit_run _ _ _ _ _ _ _ _ _ _ Hpeek Htext). cbv zeta.
  rewrite Hno. cbn [negb]. unfold delete, add_call, set_replies. cbn [replies usage calls].
  now destruct (delete_outcome discord (message_id reply)).
Qed.

Lemma on_raw_message_edit_usage payload w :
  usage (snd (on_raw_message_edit' payload w)) = usage w.
Proof.
  destruct (LRUDict.peek (payload_message_id payload) (replies w)) as [reply|] eqn:Hpeek.
  2: { now rewrite on_raw_message_edit_ignored by (now left). }
  destruct (data_content (data payload)) as [text|] eqn:Htext.
  2: { now rewrite on_raw_message_edit_ignored by (now right). }
  rewrite (on_raw_message_edit_run _ _ _ _ _ _ _ _ _ _ Hpeek Htext). cbv zeta.
  destruct (has_emotes _ _ _ _); cbn [negb].
  - destruct (String.eqb _ _); [reflexivity|].
    unfold edit. now destruct (edit_outcome _ _ _).
  - unfold delete. now destruct (delete_outcome _ _).
Qed.

End EditProperties.

(** ** Usage logging *)

Lemma increments_nodup (e user_id : Z) (ids : list Z) :
  NoDup ids ->
  increments e ((fun emote => (emote, user_id)) <$> ids) =
  if bool_decide (e ∈ ids) then 1%nat else 0%nat.
Proof.
  unfold increments. induction 1 as [|x ids Hx _ IH]; [reflexivity|].
  rewrite fmap_cons. cbn [List.filter fst].
  destruct (Z.eqb_spec x e) as [->|Hne].
  - cbn [length]. rewrite IH.
    rewrite (bool_decide_eq_false_2 _ Hx).
    rewrite bool_decide_eq_true_2; [reflexivity|]. apply list_elem_of_here.
  - rewrite IH. destruct (bool_decide (e ∈ ids)) eqn:He.
    + apply bool_decide_eq_true_1 in He.
      rewrite bool_decide_eq_true_2; [reflexivity|]. now apply list_elem_of_further.
    + apply bool_decide_eq_false_1 in He.
      rewrite bool_decide_eq_false_2; [reflexivity|].
      intros [?|?]%elem_of_cons; [congruence|contradiction].
Qed.

Lemma increments_elements (e user_id : Z) (ids : gset Z) :
  increments e ((fun emote => (emote, user_id)) <$> elements ids) =
  if bool_decide (e ∈ ids) then 1%nat else 0%nat.
Proof.
  rewrite increments_nodup by apply NoDup_elements.
  destruct (bool_decide (e ∈ ids)) eqn:He.
  - apply bool_decide_eq_true_1 in He.
    rewrite bool_decide_eq_true_2; [reflexivity|]. now apply elem_of_elements.
  - apply bool_decide_eq_false_1 in He.
    rewrite bool_decide_eq_false_2; [reflexivity|]. now rewrite elem_of_elements.
Qed.

Section Usage.

Variable lexer : string -> list Token.
Variable clean_content : Message -> string -> string.
Variable fix_first_line : string -> string.
Variable db : Database.
Variable bot : Bot.
Variable discord : Discord.

(** The uses [on_message] logs, whatever becomes of the reply. *)
Lemma on_message_usage message w :
  usage (snd (on_message lexer clean_content fix_first_line db bot discord message w)) =
  usage w ++
  (if auto_response db bot message
   then (fun emote => (emote, user_id (author message)))
          <$> elements (resolved_ids db (lexer (content message)))
   else []).
Proof.
  destruct (auto_response db bot message) eqn:Hauto.
  - rewrite on_message_run by exact Hauto. cbv zeta.
    destruct (bool_decide _); [|reflexivity].
    unfold bind, send, replies_setitem.
    now destruct (send_outcome discord _ _).
  - rewrite on_message_silent by exact Hauto. cbn [snd]. now rewrite app_nil_r.
Qed.

End Usage.

(** C4. For a new message, [on_message] extends the usage log by a stretch
    in which every entry is charged to the author of the message and each
    emote that some emote token of the message resolves to occurs exactly
    once, however many tokens resolve to it; no other emote occurs (and
    nothing is logged when the auto response does not run).  Handling an
    edit of a message leaves the usage log as it was. *)
Theorem usage_logged_once_per_message
    (lexer : string -> list Token) (clean_content : Message -> string -> string)
    (fix_first_line : string -> string) (db : Database) (bot : Bot)
    (discord : Discord) (w : World) :
  (forall message,
     exists logged,
       usage (snd (on_message lexer clean_content fix_first_line db bot discord message w))
         = usage w ++ logged /\
       Forall (fun entry => snd entry = user_id (author message)) logged /\
       forall e,
         (auto_response db bot message = true ->
          resolved_in db (lexer (content message)) e ->
          increments e logged = 1%nat) /\
         (~ (auto_response db bot message = true /\
             resolved_in db (lexer (content message)) e) ->
          increments e logged = 0%nat)) /\
  (forall payload,
     usage (snd (on_raw_message_edit lexer clean_content fix_first_line db bot discord
                   payload w))
       = usage w).
Proof.
  split.
  - intros message. eexists. split; [apply on_message_usage|].
    destruct (auto_response db bot message) eqn:Hauto.
    + split.
      * apply Forall_fmap, Forall_forall. intros e _. reflexivity.
      * intros e. rewrite increments_elements. split.
        -- intros _ Hres. apply elem_of_resolved_ids in Hres.
           now rewrite bool_decide_eq_true_2.
        -- intros Hnot. rewrite bool_decide_eq_false_2; [reflexivity|].
           intros Hin. apply Hnot. split; [reflexivity|].
           now apply elem_of_resolved_ids.
    + split; [constructor|]. intros e. split; [discriminate|reflexivity].
  - intros payload. apply on_raw_message_edit_usage.
Qed.

Lemma usage_logged_once_per_message_witness :
  let message := Sample.said 1 ":x: then ;x; and :y:" in
  auto_response Sample.db Sample.bot message = true /\
  resolved_in Sample.db (Lexer.lexer (content message)) 1 /\
  usage (snd (on_message Lexer.lexer Sample.clean_content Sample.fix_first_line
                Sample.db Sample.bot (Sample.discord []) message (Sample.world 4 [])))
    = [ (2, 42); (1, 42) ] /\
  increments 1 [ (2, 42); (1, 42) ] = 1%nat.
Proof.
  intros message.
  assert (Hauto : auto_response Sample.db Sample.bot message = true)
    by (vm_compute; reflexivity).
  assert (Hres : resolved_in Sample.db (Lexer.lexer (content message)) 1).
  { unfold resolved_in. vm_compute. apply Exists_cons_hd.
    split; [reflexivity|]. eexists. split; reflexivity. }
  assert (Hrun : usage (snd (on_message Lexer.lexer Sample.clean_content
                               Sample.fix_first_line Sample.db Sample.bot
                               (Sample.discord []) message (Sample.world 4 [])))
                 = [ (2, 42); (1, 42) ]) by (vm_compute; reflexivity).
  split; [exact Hauto|]. split; [exact Hres|]. split; [exact Hrun|].
  destruct (proj1 (usage_logged_once_per_message Lexer.lexer Sample.clean_content
                     Sample.fix_first_line Sample.db Sample.bot (Sample.discord [])
                     (Sample.world 4 [])) message) as (logged & Hlog & _ & Hcount).
  rewrite Hrun in Hlog. cbn [usage Sample.world app] in Hlog. subst logged.
  exact (proj1 (Hcount 1) Hauto Hres).
Defined.

(** ** Edits that need no new reply text *)

(** C5, as amended. For an edit of a tracked message whose new content is
    present and composes to the text the tracked reply already has, no edit
    request is sent; and when the new content still has a resolvable emote,
    the handler returns normally without any request and every entry of the
    cache, the one of this message included, maps to the same reply as
    before.  (Without a resolvable emote the handler takes the deletion
    branch first.) *)
Theorem unchanged_text_is_not_resent
    (lexer : string -> list Token) (clean_content : Message -> string -> string)
    (fix_first_line : string -> string) (db : Database) (bot : Bot)
    (discord : Discord) (payload : RawMessageUpdateEvent) (w : World)
    (reply : Message) (text : string) :
  LRUDict.peek (payload_message_id payload) (replies w) = Some reply ->
  data_content (data payload) = Some text ->
  fix_first_line (clean_content (message_of_payload bot payload text)
                                (result lexer db extract_predicate text))
    = content reply ->
  let run := on_raw_message_edit lexer clean_content fix_first_line db bot discord
               payload w in
  Forall (fun c => is_edit c = false) (new_calls w (snd run)) /\
  (has_emotes lexer db extract_predicate text = true ->
     fst run = Ok tt /\
     calls (snd run) = calls w /\
     usage (snd run) = usage w /\
     forall id, LRUDict.peek id (replies (snd run)) = LRUDict.peek id (replies w)).
Proof.
  intros Hpeek Htext Hsame run. subst run.
  rewrite (on_raw_message_edit_run _ _ _ _ _ _ _ _ _ _ Hpeek Htext). cbv zeta.
  rewrite Hsame, String.eqb_refl.
  destruct (has_emotes lexer db extract_predicate text); cbn [negb].
  - split.
    + rewrite new_calls_same by reflexivity. constructor.
    + intros _. cbn [fst snd set_replies replies usage calls].
      repeat split. intros id. now apply peek_refreshed.
  - split; [|discriminate].
    erewrite new_calls_app.
    2: { unfold delete, add_call, set_replies.
         destruct (delete_outcome discord (message_id reply)); reflexivity. }
    repeat constructor.
Qed.

Lemma unchanged_text_is_not_resent_witness :
  let w := Sample.world 4 [ (1, Sample.reply 1010 "<:x:1>") ] in
  let payload := Sample.edited 1 (Some ":x:") in
  let run := on_raw_message_edit Lexer.lexer Sample.clean_content Sample.fix_first_line
               Sample.db Sample.bot (Sample.discord []) payload w in
  has_emotes Lexer.lexer Sample.db extract_predicate ":x:" = true /\
  fst run = Ok tt /\ calls (snd run) = [] /\
  LRUDict.peek 1 (replies (snd run)) = Some (Sample.reply 1010 "<:x:1>").
Proof.
  intros w payload run.
  assert (Hhas : has_emotes Lexer.lexer Sample.db extract_predicate ":x:" = true)
    by (vm_compute; reflexivity).
  split; [exact Hhas|].
  destruct (unchanged_text_is_not_resent Lexer.lexer Sample.clean_content
              Sample.fix_first_line Sample.db Sample.bot (Sample.discord [])
              payload w (Sample.reply 1010 "<:x:1>") ":x:"
              ltac:(vm_compute; reflexivity) ltac:(reflexivity)
              ltac:(vm_compute; reflexivity)) as [_ H].
  destruct (H Hhas) as (Hok & Hcalls & _ & Hpeek).
  split; [exact Hok|]. split; [exact Hcalls|]. exact (Hpeek 1).
Defined.

(** C5 as stated fails: the tracked reply reads "<:x:1>", the emote has
    since left the database and the message is edited to the very text
    "<:x:1>".  The composed text equals the reply's content, yet the entry
    of the message is removed (and the reply deleted). *)
Lemma equal_text_without_emotes_drops_entry :
  ~ (forall (lexer : string -> list Token) clean_content fix_first_line db bot discord
            payload w reply text,
       LRUDict.peek (payload_message_id payload) (replies w) = Some reply ->
       data_content (data payload) = Some text ->
       fix_first_line (clean_content (message_of_payload bot payload text)
                                     (result lexer db extract_predicate text))
         = content reply ->
       let run := on_raw_message_edit lexer clean_content fix_first_line db bot discord
                    payload w in
       Forall (fun c => is_edit c = false) (new_calls w (snd run)) /\
       LRUDict.peek (payload_message_id payload) (replies (snd run)) = Some reply).
Proof.
  intros H.
  specialize (H Lexer.lexer Sample.clean_content Sample.fix_first_line Sample.empty_db
                Sample.bot (Sample.discord [])
                (Sample.edited 1 (Some "<:x:1>"))
                (Sample.world 4 [ (1, Sample.reply 1010 "<:x:1>") ])
                (Sample.reply 1010 "<:x:1>") "<:x:1>"
                ltac:(vm_compute; reflexivity) ltac:(reflexivity)
                ltac:(vm_compute; reflexivity)).
  destruct H as [_ H]. vm_compute in H. discriminate H.
Qed.

Example equal_text_without_emotes_run :
  on_raw_message_edit Lexer.lexer Sample.clean_content Sample.fix_first_line
    Sample.empty_db Sample.bot (Sample.discord [])
    (Sample.edited 1 (Some "<:x:1>"))
    (Sample.world 4 [ (1, Sample.reply 1010 "<:x:1>") ])
  = (Ok tt, {| replies := LRUDict.mk 4 []; usage := []; calls := [ Delete 1010 ] |}).
Proof. vm_compute. reflexivity. Qed.

(** ** Edits that remove every emote *)

(** C6. The tracked reply of message 1 is message 1010; the message is
    edited to a text without emotes and Discord answers the delete request
    with [NotFound] (the reply is already gone).  [on_raw_message_edit]
    removes the entry and sends the one delete request, but the error leaves
    the handler; [on_raw_message_delete] in the same situation returns
    normally. *)
Theorem edit_delete_failure_is_raised :
  let w := Sample.world 4 [ (1, Sample.reply 1010 "<:x:1>") ] in
  let gone := {| replies := LRUDict.mk 4 []; usage := []; calls := [ Delete 1010 ] |} in
  on_raw_message_edit Lexer.lexer Sample.clean_content Sample.fix_first_line
    Sample.db Sample.bot (Sample.discord [ 1010 ])
    (Sample.edited 1 (Some "no emotes any more")) w
  = (Raise (HTTP NotFound), gone) /\
  on_raw_message_delete (Sample.discord [ 1010 ]) 1 w = (Ok tt, gone).
Proof. vm_compute. split; reflexivity. Qed.

(** ** The quote command *)

Section Quote.

Variable lexer : string -> list Token.
Variable clean_content : Message -> string -> string.
Variable db : Database.
Variable bot : Bot.
Variable discord : Discord.

Lemma quote_run context message w :
  let invoking := context_message context in
  let body := clean_content invoking (result lexer db quote_predicate message) in
  quote lexer clean_content db bot discord context message w =
  match guild invoking with
  | None => (Raise AttributeError, w)
  | Some g =>
      if manage_messages (me_permissions_in g (channel_id (channel invoking)))
      then (Raise TypeError, w)
      else
        (match send_outcome discord (channel_id (channel invoking)) body with
         | inr _ => Ok tt
         | inl e => Raise e
         end,
         add_call (Send (channel_id (channel invoking)) body) w)
  end.
Proof.
  intros invoking body. unfold quote, quote_emotes. unfold bind at 1.
  rewrite _extract_emotes_run. cbn [default from_option]. fold invoking body.
  destruct (guild invoking) as [g|]; [|reflexivity].
  destruct (manage_messages _); [reflexivity|].
  unfold bind, send, ret. now destruct (send_outcome discord _ _).
Qed.

End Quote.

(** C9, as amended. When the bot lacks the manage-messages permission in
    the channel of the invocation, [quote] sends exactly one request: the
    body, with no attribution in front.  The body is the sanitised quoted
    text: when some emote token resolves, the tokens in order with each
    resolved emote token replaced by its rendered form and every other
    token (unresolved emote tokens included) as written; otherwise the
    argument itself.  The cache and the usage log are untouched. *)
Theorem quote_without_manage_messages_posts_body
    (lexer : string -> list Token) (clean_content : Message -> string -> string)
    (db : Database) (bot : Bot) (discord : Discord)
    (context : Context) (message : string) (w : World) (g : Guild) :
  let invoking := context_message context in
  guild invoking = Some g ->
  manage_messages (me_permissions_in g (channel_id (channel invoking))) = false ->
  let after := snd (quote lexer clean_content db bot discord context message w) in
  let body :=
    if bool_decide (resolved_ids db (lexer message) ≠ ∅)
    then join (quote_piece db <$> lexer message)
    else message in
  calls after = calls w ++ [ Send (channel_id (channel invoking))
                                  (clean_content invoking body) ] /\
  replies after = replies w /\
  usage after = usage w.
Proof.
  intros invoking Hg Hperm after body. subst after.
  rewrite quote_run. fold invoking. rewrite Hg, Hperm.
  rewrite result_quote. fold body. cbn [snd]. repeat split.
Qed.

Lemma quote_without_manage_messages_posts_body_witness :
  let context := {| context_message := Sample.said 1 "ec/quote hi :x:" |} in
  calls (snd (quote Lexer.lexer Sample.clean_content Sample.db Sample.bot
                (Sample.discord []) context " hi :x:" (Sample.world 4 [])))
  = [ Send 10 " hi <:x:1>" ].
Proof.
  intros context.
  destruct (quote_without_manage_messages_posts_body Lexer.lexer Sample.clean_content
              Sample.db Sample.bot (Sample.discord []) context " hi :x:"
              (Sample.world 4 []) (Sample.server false) eq_refl eq_refl) as (H & _ & _).
  rewrite H. vm_compute. reflexivity.
Defined.

(** C9 as stated fails: Alice invokes the command in a channel where the
    bot may not manage messages; what is posted is the body alone, it does
    not start with the line that names her. *)
Lemma quote_posts_no_attribution :
  let context := {| context_message := Sample.said 1 "ec/quote hi :x:" |} in
  let attribution := mention (author (context_message context)) +:+ " said:" in
  quote Lexer.lexer Sample.clean_content Sample.db Sample.bot (Sample.discord [])
        context " hi :x:" (Sample.world 4 [])
  = (Ok tt, {| replies := LRUDict.mk 4 []; usage := [];
               calls := [ Send 10 " hi <:x:1>" ] |}) /\
  String.prefix attribution " hi <:x:1>" = false /\
  " hi <:x:1>" <> attribution +:+ " hi <:x:1>".
Proof. vm_compute. repeat split. discriminate. Qed.

(** With the permission the handler stops at the call of the local name
    bound to the flag, before any request. *)
Example quote_with_manage_messages_run :
  quote Lexer.lexer Sample.clean_content Sample.db Sample.bot (Sample.discord [])
        {| context_message :=
             {| message_id := 1; channel := Sample.general true;
                author := Sample.alice; content := "ec/quote hi :x:" |} |}
        " hi :x:" (Sample.world 4 [])
  = (Raise TypeError, Sample.world 4 []).
Proof. vm_compute. reflexivity. Qed.

(** C10. [quote] calls [quote_emotes] with [log_usage] left at its default
    [False]: whatever the invocation and whatever its outcome, the usage
    log is the one it started with, so no emote's count changes. *)
Theorem quote_never_logs_usage
    (lexer : string -> list Token) (clean_content : Message -> string -> string)
    (db : Database) (bot : Bot) (discord : Discord)
    (context : Context) (message : string) (w : World) :
  usage (snd (quote lexer clean_content db bot discord context message w)) = usage w /\
  (forall e,
     increments e (usage (snd (quote lexer clean_content db bot discord context message w)))
     = increments e (usage w)) /\
  snd (quote_emotes lexer clean_content db (context_message context) (Some message) false w)
  = w.
Proof.
  assert (H : usage (snd (quote lexer clean_content db bot discord context message w))
              = usage w).
  { rewrite quote_run. cbv zeta.
    destruct (guild (context_message context)) as [g|]; [|reflexivity].
    now destruct (manage_messages _). }
  split; [exact H|]. split.
  - intros e. now rewrite H.
  - unfold quote_emotes. now rewrite _extract_emotes_run.
Qed.

(** ** Capacity of the reply cache *)



Section Capacity.

Variable lexer : string -> list Token.
Variable clean_content : Message -> string -> string.
Variable fix_first_line : string -> string.
Variable db : Database.
Variable bot : Bot.
Variable discord : Discord.

Local Abbreviation on_message' :=
  (on_message lexer clean_content fix_first_line db bot discord).







End Capacity.





Example full_cache_drops_oldest_entry :
  on_message Lexer.lexer Sample.clean_content Sample.fix_first_line
    Sample.db Sample.bot (Sample.discord []) (Sample.said 3 ":x:")
    (Sample.world 2 [ (1, Sample.reply 1001 "<:x:1>"); (2, Sample.reply 1002 "<:y:2>") ])
  = (Ok tt,
     {| replies := LRUDict.mk 2 [ (2, Sample.reply 1002 "<:y:2>");
                                  (3, Sample.reply 1010 "<:x:1>") ];
        usage := [ (1, 42) ];
        calls := [ Send 10 "<:x:1>" ] |}).
Proof. vm_compute. reflexivity. Qed.

(** * Further properties *)

(** ** Stripping the delimiters *)

Lemma rev_app_append (s1 s2 : string) : String.rev_app s1 s2 = String.rev s1 +:+ s2.
Proof.
  unfold String.rev. revert s2. induction s1 as [|c s1 IH]; intros s2; [reflexivity|].
  cbn [String.rev_app]. rewrite IH, (IH (String c EmptyString)), append_assoc.
  reflexivity.
Qed.

Lemma rev_cons (c : ascii) (s : string) :
  String.rev (String c s) = String.rev s +:+ String c EmptyString.
Proof. unfold String.rev at 1. cbn [String.rev_app]. apply rev_app_append. Qed.

Lemma rev_append (a b : string) : String.rev (a +:+ b) = String.rev b +:+ String.rev a.
Proof.
  induction a as [|c a IH].
  - change (EmptyString +:+ b) with b. now rewrite append_empty_r.
  - rewrite append_cons, !rev_cons, IH, append_assoc. reflexivity.
Qed.

Lemma rev_involutive (s : string) : String.rev (String.rev s) = s.
Proof.
  induction s as [|c s IH]; [reflexivity|].
  rewrite rev_cons, rev_append, IH. reflexivity.
Qed.

Lemma all_in_append chars a b :
  all_in chars (a +:+ b) = all_in chars a && all_in chars b.
Proof.
  induction a as [|c a IH]; [reflexivity|].
  rewrite append_cons. cbn [all_in]. rewrite IH. now rewrite andb_assoc.
Qed.

Lemma all_in_rev chars s : all_in chars (String.rev s) = all_in chars s.
Proof.
  induction s as [|c s IH]; [reflexivity|].
  rewrite rev_cons, all_in_append, IH. cbn [all_in].
  rewrite andb_true_r. apply andb_comm.
Qed.

Lemma lstrip_all_in chars pre s :
  all_in chars pre = true -> lstrip chars (pre +:+ s) = lstrip chars s.
Proof.
  induction pre as [|c pre IH]; [reflexivity|].
  cbn [all_in]. intros [Hc Hpre]%andb_true_iff.
  rewrite append_cons. cbn [lstrip]. rewrite Hc. now apply IH.
Qed.

Lemma lstrip_all chars s : all_in chars s = true -> lstrip chars s = EmptyString.
Proof.
  intros H. rewrite <- (append_empty_r s). now rewrite lstrip_all_in.
Qed.

(** A text that [lstrip] leaves alone is still left alone with more text
    behind it, unless it is empty. *)
Lemma lstrip_fixed_append chars s post :
  s <> EmptyString -> lstrip chars s = s -> lstrip chars (s +:+ post) = s +:+ post.
Proof.
  destruct s as [|c s]; [congruence|]. intros _. cbn [lstrip].
  rewrite append_cons. cbn [lstrip].
  destruct (char_in c chars) eqn:Hc; [|reflexivity].
  intros H. exfalso.
  assert (Hlen : forall t, (String.length (lstrip chars t) <= String.length t)%nat).
  { clear. induction t as [|d t IH]; [reflexivity|].
    cbn [lstrip]. destruct (char_in d chars); cbn [String.length]; lia. }
  pose proof (Hlen s) as Hs. rewrite H in Hs. cbn [String.length] in Hs. lia.
Qed.

Lemma strip_between chars pre s post :
  all_in chars pre = true -> all_in chars post = true ->
  lstrip chars s = s -> rstrip chars s = s ->
  strip chars (pre +:+ s +:+ post) = s.
Proof.
  intros Hpre Hpost Hl Hr. unfold strip. rewrite lstrip_all_in by exact Hpre.
  destruct s as [|c s].
  - change (EmptyString +:+ post) with post. now rewrite lstrip_all.
  - rewrite lstrip_fixed_append by (exact Hl || discriminate).
    unfold rstrip. rewrite rev_append, lstrip_all_in by (now rewrite all_in_rev).
    exact Hr.
Qed.

Lemma lstrip_fixed chars s : starts_with_any chars s = false -> lstrip chars s = s.
Proof. destruct s as [|c s]; [reflexivity|]. cbn. now intros ->. Qed.

Lemma rstrip_fixed chars s : ends_with_any chars s = false -> rstrip chars s = s.
Proof.
  unfold ends_with_any, rstrip. intros H. rewrite lstrip_fixed by exact H.
  apply rev_involutive.
Qed.

Lemma lstrip_starts chars s : starts_with_any chars (lstrip chars s) = false.
Proof.
  induction s as [|c s IH]; [reflexivity|].
  cbn [lstrip]. destruct (char_in c chars) eqn:Hc; [exact IH|]. exact Hc.
Qed.

Lemma lstrip_append_last chars a c :
  char_in c chars = false ->
  lstrip chars (a +:+ String c EmptyString) = lstrip chars a +:+ String c EmptyString.
Proof.
  intros Hc. induction a as [|d a IH].
  - change (EmptyString +:+ String c EmptyString) with (String c EmptyString).
    cbn [lstrip]. now rewrite Hc.
  - rewrite append_cons. cbn [lstrip]. destruct (char_in d chars); [exact IH|].
    now rewrite append_cons.
Qed.

(** Stripping the end of a text does not uncover a delimiter at its
    start. *)
Lemma rstrip_starts chars s :
  starts_with_any chars s = false -> starts_with_any chars (rstrip chars s) = false.
Proof.
  destruct s as [|c s]; [reflexivity|]. cbn [starts_with_any]. intros Hc.
  unfold rstrip. rewrite rev_cons, lstrip_append_last by exact Hc.
  rewrite rev_append. cbn. exact Hc.
Qed.

Lemma rstrip_ends chars s : ends_with_any chars (rstrip chars s) = false.
Proof.
  unfold ends_with_any, rstrip. rewrite rev_involutive. apply lstrip_starts.
Qed.

(** X1. The name [_extract_emotes] looks up (and the names [add] and
    [rename] pass on) is what [strip(':;')] returns: it neither begins nor
    ends with a colon or a semicolon, and stripping it again changes
    nothing. *)
Theorem stripped_name_has_clean_ends (text : string) :
  starts_with_any ":;" (strip ":;" text) = false /\
  ends_with_any ":;" (strip ":;" text) = false /\
  strip ":;" (strip ":;" text) = strip ":;" text.
Proof.
  assert (Hs : starts_with_any ":;" (strip ":;" text) = false).
  { unfold strip. apply rstrip_starts, lstrip_starts. }
  assert (He : ends_with_any ":;" (strip ":;" text) = false).
  { unfold strip. apply rstrip_ends. }
  split; [exact Hs|]. split; [exact He|].
  unfold strip at 1. rewrite (lstrip_fixed _ _ Hs). now apply rstrip_fixed.
Qed.

(** X2. A token written [:name:] and one written [;name;] (or with any
    other run of colons and semicolons on either side) ask the database for
    the same name, [name] itself, provided [name] neither begins nor ends
    with a colon or a semicolon. *)
Theorem delimiters_do_not_matter_for_lookup
    (db : Database) (name before after : string) (type1 : string) :
  starts_with_any ":;" name = false ->
  ends_with_any ":;" name = false ->
  all_in ":;" before = true ->
  all_in ":;" after = true ->
  resolve db {| type := type1; value := before +:+ name +:+ after |} = get_emote db name.
Proof.
  intros Hs He Hb Ha. unfold resolve. cbn [value].
  rewrite strip_between; try assumption; [reflexivity| |].
  - now apply lstrip_fixed.
  - now apply rstrip_fixed.
Qed.

Lemma delimiters_do_not_matter_for_lookup_witness :
  resolve Sample.db {| type := "EMOTE"; value := ":" +:+ "x" +:+ ":" |}
    = get_emote Sample.db "x" /\
  resolve Sample.db {| type := "EMOTE"; value := ";" +:+ "x" +:+ ";" |}
    = get_emote Sample.db "x".
Proof.
  split.
  - apply (delimiters_do_not_matter_for_lookup Sample.db "x" ":" ":" "EMOTE");
      vm_compute; reflexivity.
  - apply (delimiters_do_not_matter_for_lookup Sample.db "x" ";" ";" "EMOTE");
      vm_compute; reflexivity.
Defined.

(** ** The two extractions side by side *)

(** X3. [extract_emotes] and [quote_emotes] look up exactly the same
    tokens: run on the same message with the same arguments they return the
    same flag, log the same uses and leave the same world; only the text
    differs. *)
Theorem extractions_agree_on_emotes
    (lexer : string -> list Token) (clean_content : Message -> string -> string)
    (fix_first_line : string -> string) (db : Database)
    (message : Message) (content_arg : option string) (log_usage : bool) (w : World) :
  emotes_used lexer db extract_predicate (default (content message) content_arg)
    = emotes_used lexer db quote_predicate (default (content message) content_arg) /\
  exists extracted quoted flag after,
    extract_emotes lexer clean_content fix_first_line db message content_arg log_usage w
      = (Ok (extracted, flag), after) /\
    quote_emotes lexer clean_content db message content_arg log_usage w
      = (Ok (quoted, flag), after).
Proof.
  split; [now rewrite emotes_used_extract, emotes_used_quote|].
  do 4 eexists. unfold quote_emotes.
  rewrite extract_emotes_run, _extract_emotes_run. cbv zeta.
  rewrite has_emotes_extract, has_emotes_quote, emotes_used_quote.
  split; reflexivity.
Qed.

Lemma pieces_of_kept_tokens db tokens :
  join (extract_piece db <$> tokens)
    = join (extract_piece db <$> List.filter kept_by_extract tokens) /\
  resolved_ids db tokens = resolved_ids db (List.filter kept_by_extract tokens).
Proof.
  induction tokens as [|toke1 tokens [IHj IHr]]; [split; reflexivity|].
  cbn [List.filter].
  destruct (kept_by_extract toke1) eqn:Hk.
  - rewrite !fmap_cons, !join_cons, !resolved_ids_cons, <- IHj, <- IHr. now split.
  - apply orb_false_iff in Hk as [He Hn].
    rewrite fmap_cons, join_cons, resolved_ids_cons, <- IHj, <- IHr.
    unfold extract_piece, token_ids. rewrite He, Hn. split; [reflexivity|].
    apply union_empty_l_L.
Qed.

(** X4. What [extract_emotes] writes and which emotes it uses depend only
    on the emote tokens and the newline tokens of the text: two texts that
    agree on those, in order, fill the buffer alike, whatever other tokens
    surround them. *)
Theorem extraction_ignores_other_text
    (lexer : string -> list Token) (db : Database) (text1 text2 : string) :
  List.filter kept_by_extract (lexer text1) = List.filter kept_by_extract (lexer text2) ->
  scan lexer db extract_predicate text1 = scan lexer db extract_predicate text2.
Proof.
  intros H. rewrite !scan_extract.
  destruct (pieces_of_kept_tokens db (lexer text1)) as [-> ->].
  destruct (pieces_of_kept_tokens db (lexer text2)) as [-> ->].
  now rewrite H.
Qed.

Lemma extraction_ignores_other_text_witness :
  scan Lexer.lexer Sample.db extract_predicate "so :x: it is"
    = scan Lexer.lexer Sample.db extract_predicate ":x:".
Proof.
  apply (extraction_ignores_other_text Lexer.lexer Sample.db "so :x: it is" ":x:").
  vm_compute. reflexivity.
Defined.

(** ** New messages, continued *)

(** X5. Each of the five refusals of [on_message] is enough on its own:
    when the bot should not reply, when the message invokes a command, when
    the bot may not use external emojis in the guild channel, when the
    auto response is off for the author, or when the author is
    blacklisted, the handler returns with nothing sent, logged or
    cached. *)
Theorem refused_message_changes_nothing
    (lexer : string -> list Token) (clean_content : Message -> string -> string)
    (fix_first_line : string -> string) (db : Database) (bot : Bot)
    (discord : Discord) (message : Message) (w : World) :
  should_reply bot message = false \/
  context_valid bot message = true \/
  (exists g, guild message = Some g /\
             external_emojis (me_permissions_in g (channel_id (channel message))) = false) \/
  get_state db (guild_id <$> guild message) (user_id (author message)) = false \/
  is_Some (get_user_blacklist db (user_id (author message))) ->
  on_message lexer clean_content fix_first_line db bot discord message w = (Ok tt, w).
Proof.
  intros H. apply on_message_silent. unfold auto_response.
  destruct H as [->|[->|[(g & -> & ->)|[->|[reason ->]]]]].
  - reflexivity.
  - now rewrite andb_false_r.
  - now rewrite andb_false_r.
  - now rewrite andb_false_r.
  - rewrite bool_decide_eq_false_2 by discriminate. now rewrite andb_false_r.
Qed.

Lemma refused_message_changes_nothing_witness :
  on_message Lexer.lexer Sample.clean_content Sample.fix_first_line blacklisting_db
             Sample.bot (Sample.discord []) (Sample.said 1 ":x:") (Sample.world 4 [])
  = (Ok tt, Sample.world 4 []).
Proof.
  apply refused_message_changes_nothing.
  right. right. right. right. vm_compute. eexists. reflexivity.
Defined.

Lemma find_absent_tl {V} k (l : list (Z * V)) :
  List.find (LRUDict.is_key k) l = None ->
  List.find (LRUDict.is_key k) (List.tl l) = None.
Proof.
  destruct l as [|kv l]; [reflexivity|]. cbn [List.find List.tl].
  now destruct (LRUDict.is_key k kv).
Qed.

(** What is written under a key is what is read back. *)
Lemma peek_setitem_eq {V} k (v : V) (d : LRUDict.t V) :
  LRUDict.peek k (LRUDict.setitem k v d) = Some v.
Proof.
  unfold LRUDict.setitem.
  destruct (LRUDict.contains k d) eqn:Hc.
  - unfold LRUDict.peek. cbn [LRUDict.items].
    now rewrite find_app_last, find_remove_eq, Z.eqb_refl.
  - assert (Hfind : List.find (LRUDict.is_key k) (LRUDict.items d) = None).
    { rewrite contains_peek in Hc. apply bool_decide_eq_false_1 in Hc.
      unfold LRUDict.peek in Hc. destruct (List.find _ _); [|reflexivity].
      exfalso. apply Hc. now eexists. }
    destruct (_ <=? _)%nat; unfold LRUDict.peek; cbn [LRUDict.items];
      rewrite find_app_last.
    + now rewrite (find_absent_tl _ _ Hfind), Z.eqb_refl.
    + now rewrite Hfind, Z.eqb_refl.
Qed.

Section Replies.

Variable lexer : string -> list Token.
Variable clean_content : Message -> string -> string.
Variable fix_first_line : string -> string.
Variable db : Database.
Variable bot : Bot.
Variable discord : Discord.

(** The text [on_message] sends for a message with emotes. *)
Local Abbreviation reply_text message :=
  (fix_first_line
     (clean_content message (join (extract_piece db <$> lexer (content message))))).

Local Abbreviation logged_uses message :=
  ((fun emote => (emote, user_id (author message)))
     <$> elements (resolved_ids db (lexer (content message)))).

(** X6. When the auto response runs on a message with a resolvable emote
    and Discord refuses the reply, the error leaves [on_message], no cache
    entry is written, and the uses of the emotes are logged all the
    same. *)
Theorem failed_reply_is_not_tracked (message : Message) (w : World) (e : exn) :
  auto_response db bot message = true ->
  resolved_ids db (lexer (content message)) <> ∅ ->
  send_outcome discord (channel_id (channel message)) (reply_text message) = inl e ->
  on_message lexer clean_content fix_first_line db bot discord message w =
  (Raise e,
   {| replies := replies w;
      usage := usage w ++ logged_uses message;
      calls := calls w ++ [ Send (channel_id (channel message)) (reply_text message) ] |}).
Proof.
  intros Hauto Hids Hsend. rewrite on_message_run by exact Hauto. cbv zeta.
  rewrite bool_decide_eq_true_2 by exact Hids.
  unfold bind, send. cbn [calls add_call add_usages]. now rewrite Hsend.
Qed.

(** X7. When the reply is sent, the message is tracked: its cache entry is
    the message Discord created, carrying the text that was sent.  Deleting
    the source message right afterwards asks Discord to delete exactly that
    reply and leaves the message untracked, however that request ends (only
    a failure that is not an [HTTPException] leaves the handler). *)
Theorem sent_reply_is_tracked_until_deleted
    (message : Message) (w : World) (new_id : Z) :
  auto_response db bot message = true ->
  resolved_ids db (lexer (content message)) <> ∅ ->
  send_outcome discord (channel_id (channel message)) (reply_text message) = inr new_id ->
  let posted := on_message lexer clean_content fix_first_line db bot discord message w in
  let deleted := on_raw_message_delete discord (message_id message) (snd posted) in
  fst posted = Ok tt /\
  LRUDict.peek (message_id message) (replies (snd posted))
    = Some {| message_id := new_id; channel := channel message;
              author := user bot; content := reply_text message |} /\
  fst deleted = match delete_outcome discord new_id with
                | Some e => if is_HTTPException e then Ok tt else Raise e
                | None => Ok tt
                end /\
  calls (snd deleted)
    = calls w ++ [ Send (channel_id (channel message)) (reply_text message);
                   Delete new_id ] /\
  LRUDict.peek (message_id message) (replies (snd deleted)) = None.
Proof.
  intros Hauto Hids Hsend posted deleted. subst deleted posted.
  rewrite on_message_run by exact Hauto. cbv zeta.
  rewrite bool_decide_eq_true_2 by exact Hids.
  unfold bind, send, replies_setitem. rewrite Hsend.
  cbn [fst snd set_replies add_call add_usages replies usage calls].
  split; [reflexivity|]. split; [apply peek_setitem_eq|].
  unfold on_raw_message_delete. rewrite delete_reply_run.
  cbn [replies set_replies]. rewrite peek_setitem_eq.
  cbn [fst snd set_replies add_call add_usages replies usage calls message_id].
  split; [reflexivity|]. split; [now rewrite <- app_assoc|].
  apply peek_remove_eq.
Qed.

End Replies.

Lemma failed_reply_is_not_tracked_witness :
  on_message Lexer.lexer Sample.clean_content Sample.fix_first_line Sample.db
             Sample.bot refusing_discord (Sample.said 1 ":x:") (Sample.world 4 [])
  = (Raise (HTTP Forbidden),
     {| replies := LRUDict.mk 4 []; usage := [ (1, 42) ]; calls := [ Send 10 "<:x:1>" ] |}).
Proof.
  rewrite (failed_reply_is_not_tracked Lexer.lexer Sample.clean_content
             Sample.fix_first_line Sample.db Sample.bot refusing_discord
             (Sample.said 1 ":x:") (Sample.world 4 []) (HTTP Forbidden)).
  - vm_compute. reflexivity.
  - vm_compute. reflexivity.
  - vm_compute. intros H. discriminate H.
  - reflexivity.
Defined.

Lemma sent_reply_is_tracked_until_deleted_witness :
  let posted := on_message Lexer.lexer Sample.clean_content Sample.fix_first_line
                  Sample.db Sample.bot (Sample.discord []) (Sample.said 1 ":x:")
                  (Sample.world 4 []) in
  LRUDict.peek 1 (replies (snd posted)) = Some (Sample.reply 1010 "<:x:1>") /\
  calls (snd (on_raw_message_delete (Sample.discord []) 1 (snd posted)))
    = [ Send 10 "<:x:1>"; Delete 1010 ].
Proof.
  intros posted.
  destruct (sent_reply_is_tracked_until_deleted Lexer.lexer Sample.clean_content
              Sample.fix_first_line Sample.db Sample.bot (Sample.discord [])
              (Sample.said 1 ":x:") (Sample.world 4 []) 1010)
    as (_ & Hpeek & _ & Hcalls & _).
  - vm_compute. reflexivity.
  - vm_compute. intros H. discriminate H.
  - reflexivity.
  - cbn [message_id Sample.said] in Hpeek, Hcalls. split.
    + subst posted. rewrite Hpeek. vm_compute. reflexivity.
    + subst posted. rewrite Hcalls. vm_compute. reflexivity.
Defined.

(** ** Edits, continued *)

Lemma peek_mutate {V} k j (f : V -> V) (d : LRUDict.t V) :
  LRUDict.peek j (LRUDict.mutate k f d)
  = (if Z.eqb j k then f else fun v => v) <$> LRUDict.peek j d.
Proof.
  unfold LRUDict.peek, LRUDict.mutate. cbn [LRUDict.items].
  induction (LRUDict.items d) as [|[k' v'] l IH]; [reflexivity|].
  unfold LRUDict.is_key in *. cbn [List.map List.find fst snd] in *.
  destruct (Z.eqb_spec k' k) as [Hk|Hk]; cbn [fst snd];
    destruct (Z.eqb_spec k' j) as [Hj|Hj].
  - subst. rewrite Z.eqb_refl. reflexivity.
  - exact IH.
  - subst. destruct (Z.eqb_spec j k); [congruence|reflexivity].
  - exact IH.
Qed.

Section MoreEdits.

Variable lexer : string -> list Token.
Variable clean_content : Message -> string -> string.
Variable fix_first_line : string -> string.
Variable db : Database.
Variable bot : Bot.
Variable discord : Discord.

Local Abbreviation on_raw_message_edit' :=
  (on_raw_message_edit lexer clean_content fix_first_line db bot discord).

Local Abbreviation edited_text payload text :=
  (fix_first_line
     (clean_content (message_of_payload bot payload text)
                    (result lexer db extract_predicate text))).

(** X8. An edit event for a message without cache entry, or whose data
    carry no content, is ignored altogether: no request, no change of the
    cache (not even of its order), no logging. *)
Theorem untracked_or_contentless_edit_is_ignored
    (payload : RawMessageUpdateEvent) (w : World) :
  LRUDict.contains (payload_message_id payload) (replies w) = false \/
  data_content (data payload) = None ->
  on_raw_message_edit' payload w = (Ok tt, w).
Proof.
  intros [H|H]; apply on_raw_message_edit_ignored; [left|now right].
  rewrite contains_peek in H. apply bool_decide_eq_false_1 in H.
  destruct (LRUDict.peek _ _); [|reflexivity]. exfalso. apply H. now eexists.
Qed.


End MoreEdits.

Lemma untracked_or_contentless_edit_is_ignored_witness :
  let w := Sample.world 4 [ (1, Sample.reply 1010 "<:x:1>") ] in
  on_raw_message_edit Lexer.lexer Sample.clean_content Sample.fix_first_line Sample.db
    Sample.bot (Sample.discord []) (Sample.edited 1 None) w
  = (Ok tt, w).
Proof.
  intros w. apply untracked_or_contentless_edit_is_ignored. right. reflexivity.
Defined.


(** ** Deletions, continued *)

Lemma existsb_Permutation {A} (f : A -> bool) (l1 l2 : list A) :
  l1 ≡ₚ l2 -> List.existsb f l1 = List.existsb f l2.
Proof.
  induction 1 as [|x l1 l2 _ IH|x y l|l1 l2 l3 _ IH1 _ IH2]; cbn [List.existsb].
  - reflexivity.
  - now rewrite IH.
  - now destruct (f x), (f y).
  - now rewrite IH1.
Qed.

Lemma without_keys_Permutation {V} (ks1 ks2 : list Z) (d : LRUDict.t V) :
  ks1 ≡ₚ ks2 -> without_keys ks1 d = without_keys ks2 d.
Proof.
  intros H. unfold without_keys. f_equal. apply List.filter_ext.
  intros kv. now rewrite (existsb_Permutation _ _ _ H).
Qed.

(** X11. [delete_reply] removes the entry before it asks Discord, sends
    one delete request when the message has a cache entry and none
    otherwise, and is idempotent: a second call for the same message finds
    nothing to do and returns normally.  It returns normally unless that
    one request fails with an exception that is not a
    [discord.HTTPException], which it lets through. *)
Theorem delete_reply_is_idempotent (discord : Discord) (id : Z) (w : World) :
  let once := delete_reply discord id w in
  fst once
    = match LRUDict.peek id (replies w) with
      | Some reply =>
          match delete_outcome discord (message_id reply) with
          | Some e => if is_HTTPException e then Ok tt else Raise e
          | None => Ok tt
          end
      | None => Ok tt
      end /\
  new_calls w (snd once)
    = match LRUDict.peek id (replies w) with
      | Some reply => [ Delete (message_id reply) ]
      | None => []
      end /\
  LRUDict.peek id (replies (snd once)) = None /\
  delete_reply discord id (snd once) = (Ok tt, snd once).
Proof.
  intros once. subst once. rewrite delete_reply_run.
  destruct (LRUDict.peek id (replies w)) as [reply|] eqn:Hpeek; cbn [fst snd].
  - split; [reflexivity|]. split; [apply new_calls_app; reflexivity|].
    cbn [replies set_replies add_call]. split; [apply peek_remove_eq|].
    rewrite delete_reply_run. cbn [replies set_replies add_call].
    now rewrite peek_remove_eq.
  - split; [reflexivity|]. split; [now apply new_calls_same|].
    split; [exact Hpeek|]. now rewrite delete_reply_run, Hpeek.
Qed.

(** X12. When the delete requests for the replies of the batch fail, if
    at all, with a [discord.HTTPException], the outcome of a bulk delete
    does not depend on the order in which the set of ids is walked: in any
    two orders the handler returns normally with the same cache and the
    same usage log, and sends the same delete requests up to their
    order. *)
Theorem bulk_delete_order_is_immaterial
    (discord : Discord) (order1 order2 : list Z) (w : World) :
  NoDup order1 ->
  order1 ≡ₚ order2 ->
  delete_failures_are_http discord order1 (replies w) ->
  let walked1 := on_raw_bulk_message_delete discord order1 w in
  let walked2 := on_raw_bulk_message_delete discord order2 w in
  fst walked1 = Ok tt /\ fst walked2 = Ok tt /\
  replies (snd walked1) = replies (snd walked2) /\
  usage (snd walked1) = usage (snd walked2) /\
  calls (snd walked1) ≡ₚ calls (snd walked2).
Proof.
  intros Hnodup Hperm Hhttp walked1 walked2. subst walked1 walked2.
  unfold on_raw_bulk_message_delete.
  assert (Hnodup2 : NoDup order2) by (now rewrite <- Hperm).
  assert (Hhttp2 : delete_failures_are_http discord order2 (replies w)).
  { intros k reply e Hk. apply Hhttp. now rewrite Hperm. }
  rewrite !for_each_delete_reply by assumption.
  cbn [fst snd replies usage calls]. repeat split.
  - now apply without_keys_Permutation.
  - apply Permutation_app_head. unfold delete_calls. now rewrite Hperm.
Qed.

Lemma bulk_delete_order_is_immaterial_witness :
  let w := Sample.world 4 [ (1, Sample.reply 1001 "<:x:1>"); (2, Sample.reply 1002 "<:y:2>") ] in
  replies (snd (on_raw_bulk_message_delete (Sample.discord [ 1001 ]) [ 1; 2 ] w))
    = replies (snd (on_raw_bulk_message_delete (Sample.discord [ 1001 ]) [ 2; 1 ] w)).
Proof.
  intros w.
  apply (bulk_delete_order_is_immaterial (Sample.discord [ 1001 ]) [ 1; 2 ] [ 2; 1 ] w).
  - apply (bool_decide_unpack _). vm_compute. exact I.
  - apply perm_swap.
  - apply sample_failures_are_http.
Defined.

(** With a failure of another class the order does matter: the walk ends
    at the failing id and the ids after it keep their entries. *)
Example bulk_delete_order_matters_for_other_failures :
  let w := Sample.world 4 [ (1, Sample.reply 1001 "<:x:1>"); (2, Sample.reply 1002 "<:y:2>") ] in
  replies (snd (on_raw_bulk_message_delete (unreachable_discord [ 1001 ]) [ 1; 2 ] w))
    = LRUDict.mk 4 [ (2, Sample.reply 1002 "<:y:2>") ] /\
  replies (snd (on_raw_bulk_message_delete (unreachable_discord [ 1001 ]) [ 2; 1 ] w))
    = LRUDict.mk 4 [].
Proof. vm_compute. split; reflexivity. Qed.

(** ** What only new messages do *)

Lemma delete_reply_keeps (discord : Discord) (k : Z) (w : World) (id : Z) :
  usage (snd (delete_reply discord k w)) = usage w /\
  (is_Some (LRUDict.peek id (replies (snd (delete_reply discord k w)))) ->
   is_Some (LRUDict.peek id (replies w))).
Proof.
  rewrite delete_reply_state.
  destruct (LRUDict.peek k (replies w)) as [reply|] eqn:Hpeek; [|now split].
  cbn [usage replies set_replies add_call]. split; [reflexivity|].
  destruct (decide (id = k)) as [->|Hne].
  - rewrite peek_remove_eq. now intros [? [=]].
  - rewrite peek_remove_ne by exact Hne. now destruct (replies w).
Qed.

(** X13. Only a new message can start tracking and only a new message
    logs uses: after an edit, a deletion, a bulk deletion or a [quote],
    every message with a cache entry had one before, and the usage log is
    unchanged. *)
Theorem only_new_messages_add_entries
    (lexer : string -> list Token) (clean_content : Message -> string -> string)
    (fix_first_line : string -> string) (db : Database) (bot : Bot)
    (discord : Discord) (event : Event) (w : World) (id : Z) :
  (forall message, event <> MessageCreate message) ->
  let after := snd (dispatch lexer clean_content fix_first_line db bot discord event w) in
  usage after = usage w /\
  (is_Some (LRUDict.peek id (replies after)) -> is_Some (LRUDict.peek id (replies w))).
Proof.
  intros Hevent after. subst after. destruct event as [m|payload|k|ks|context text];
    cbn [dispatch].
  - now destruct (Hevent m).
  - split; [apply on_raw_message_edit_usage|].
    destruct (LRUDict.peek (payload_message_id payload) (replies w)) as [reply|] eqn:Hpeek.
    2: { now rewrite on_raw_message_edit_ignored by (now left). }
    destruct (data_content (data payload)) as [new_text|] eqn:Htext.
    2: { now rewrite on_raw_message_edit_ignored by (now right). }
    rewrite (on_raw_message_edit_run _ _ _ _ _ _ _ _ _ _ Hpeek Htext). cbv zeta.
    destruct (has_emotes _ _ _ _); cbn [negb].
    + destruct (String.eqb _ _).
      * cbn [snd replies set_replies]. now rewrite (peek_refreshed _ (replies w) reply).
      * unfold edit. destruct (edit_outcome _ _ _);
          cbn [snd replies set_replies add_call].
        -- now rewrite (peek_refreshed _ (replies w) reply).
        -- rewrite peek_mutate, (peek_refreshed _ (replies w) reply) by exact Hpeek.
           intros [v Hv]. destruct (LRUDict.peek id (replies w)); [now eexists|].
           discriminate Hv.
    + unfold delete. destruct (delete_outcome _ _);
        cbn [snd replies set_replies add_call];
        (destruct (decide (id = payload_message_id payload)) as [->|Hne];
         [rewrite peek_remove_eq; now intros [? [=]]
         |rewrite peek_remove_ne by exact Hne; now destruct (replies w)]).
  - unfold on_raw_message_delete. now apply delete_reply_keeps.
  - unfold on_raw_bulk_message_delete.
    apply (for_each_invariant
             (fun w' => usage w' = usage w /\
                        (is_Some (LRUDict.peek id (replies w')) ->
                         is_Some (LRUDict.peek id (replies w))))).
    + intros k w1 [Hu Hp]. destruct (delete_reply_keeps discord k w1 id) as [Hu1 Hp1].
      split; [congruence|tauto].
    + now split.
  - rewrite quote_run. cbv zeta.
    destruct (guild (context_message context)) as [g|]; [|now split].
    now destruct (manage_messages _).
Qed.

Lemma only_new_messages_add_entries_witness :
  let w := Sample.world 4 [ (1, Sample.reply 1010 "<:x:1>") ] in
  usage (snd (dispatch Lexer.lexer Sample.clean_content Sample.fix_first_line Sample.db
                Sample.bot (Sample.discord []) (RawMessageDelete 1) w))
  = usage w.
Proof.
  intros w.
  apply (only_new_messages_add_entries Lexer.lexer Sample.clean_content
           Sample.fix_first_line Sample.db Sample.bot (Sample.discord [])
           (RawMessageDelete 1) w 1).
  intros message H. discriminate H.
Defined.

(** ** The quote command, continued *)

(** X14. [quote] sends at most one request, and only ever a message: in a
    guild channel where the bot lacks the manage-messages permission it
    posts the body; everywhere else (a private channel, or a channel where
    it has the permission) it stops with an error before any request.  It
    never asks Discord to delete the invoking message. *)
Theorem quote_sends_at_most_one_message
    (lexer : string -> list Token) (clean_content : Message -> string -> string)
    (db : Database) (bot : Bot) (discord : Discord)
    (context : Context) (message : string) (w : World) :
  let invoking := context_message context in
  let run := quote lexer clean_content db bot discord context message w in
  new_calls w (snd run)
    = match guild invoking with
      | Some g =>
          if manage_messages (me_permissions_in g (channel_id (channel invoking)))
          then []
          else [ Send (channel_id (channel invoking))
                      (clean_content invoking (result lexer db quote_predicate message)) ]
      | None => []
      end /\
  Forall (fun c => is_delete c = false) (new_calls w (snd run)) /\
  match guild invoking with
  | Some g =>
      manage_messages (me_permissions_in g (channel_id (channel invoking))) = true ->
      run = (Raise TypeError, w)
  | None => run = (Raise AttributeError, w)
  end.
Proof.
  intros invoking run. subst run. rewrite quote_run. fold invoking.
  destruct (guild invoking) as [g|].
  - destruct (manage_messages _); cbn [snd].
    + rewrite new_calls_same by reflexivity. repeat split. constructor.
    + erewrite new_calls_app by reflexivity. repeat split; [|discriminate].
      repeat constructor.
  - cbn [snd]. rewrite new_calls_same by reflexivity. repeat split. constructor.
Qed.

Lemma quote_sends_at_most_one_message_witness :
  quote Lexer.lexer Sample.clean_content Sample.db Sample.bot (Sample.discord [])
        {| context_message :=
             {| message_id := 1; channel := Sample.general true;
                author := Sample.alice; content := "ec/quote hi :x:" |} |}
        " hi :x:" (Sample.world 4 [])
  = (Raise TypeError, Sample.world 4 []).
Proof.
  apply (proj2 (proj2 (quote_sends_at_most_one_message Lexer.lexer Sample.clean_content
                         Sample.db Sample.bot (Sample.discord [])
                         {| context_message :=
                              {| message_id := 1; channel := Sample.general true;
                                 author := Sample.alice; content := "ec/quote hi :x:" |} |}
                         " hi :x:" (Sample.world 4 [])))).
  reflexivity.
Defined.

(** ** Arguments of the add command *)

Lemma before_char_has_none c s : has_char c (before_char c s) = false.
Proof.
  unfold has_char. induction s as [|d s IH]; [reflexivity|].
  cbn [before_char]. destruct (Ascii.eqb d c) eqn:Hd; [reflexivity|].
  cbn [char_in]. rewrite IH. rewrite Ascii.eqb_sym, Hd. reflexivity.
Qed.

Lemma removed_char_is_gone c s : has_char c (replace_char c EmptyString s) = false.
Proof.
  unfold has_char. induction s as [|d s IH]; [reflexivity|].
  cbn [replace_char]. destruct (Ascii.eqb d c) eqn:Hd.
  - exact IH.
  - cbn [char_in]. rewrite IH. rewrite Ascii.eqb_sym, Hd. reflexivity.
Qed.

Lemma removal_adds_no_char c d s :
  has_char c s = false -> has_char c (replace_char d EmptyString s) = false.
Proof.
  unfold has_char. induction s as [|x s IH]; [reflexivity|].
  cbn [char_in replace_char]. intros [Hx Hs]%orb_false_iff.
  destruct (Ascii.eqb x d).
  - now apply IH.
  - cbn [char_in]. rewrite Hx. now apply IH.
Qed.

(** X15. With an attachment and no argument, the emote is named after the
    file: the part of the file name before its first dot, spaces removed,
    so the name contains neither a dot nor a space.  With arguments the
    name is their concatenation.  The URL is always that of the first
    attachment; without any attachment the function fails with
    [IndexError]. *)
Theorem attachment_name_has_no_dot_or_space
    (attachment : Attachment) (others : list Attachment) (args : list string) :
  parse_add_command_attachment [] args = inl IndexError /\
  (exists name,
     parse_add_command_attachment (attachment :: others) []
       = inr (name, attachment_url attachment) /\
     has_char "." name = false /\ has_char " " name = false) /\
  parse_add_command_attachment (attachment :: others) args
    = inr (match args with
           | [] => replace_char " " EmptyString
                     (before_char "." (attachment_filename attachment))
           | _ :: _ => join args
           end, attachment_url attachment).
Proof.
  split; [reflexivity|]. split.
  - eexists. split; [reflexivity|]. split.
    + apply removal_adds_no_char, before_char_has_none.
    + apply removed_char_is_gone.
  - now destruct args.
Qed.

Example attachment_name_sample :
  parse_add_command_attachment
    [ {| attachment_filename := "roll safe.final.png";
         attachment_url := "https://cdn.example/1.png" |} ] []
  = inr ("rollsafe", "https://cdn.example/1.png").
Proof. reflexivity. Qed.



(** ** Permission to react *)

(** X17. [_check_reaction_permissions] lets the reaction go ahead (returns
    [True]) exactly when the command is used outside a guild, or by an
    author who is not a member, or when both the author and the bot may
    read the message history and add reactions in the channel; in that case
    it sends nothing.  Otherwise it sends exactly one message to the
    channel, about the message history if that permission is missing on
    either side and about reactions if not. *)
Theorem reaction_needs_both_permissions_on_both_sides
    (gettext : string -> string) (bot : Bot) (discord : Discord)
    (context : ReactContext) (w : World) :
  let run := _check_reaction_permissions gettext bot discord context w in
  let in_guild := bool_decide (is_Some (channel_guild (react_channel context))) in
  let history := read_message_history (sender_permissions context)
                 && read_message_history (my_permissions context) in
  let reactions := add_reactions (sender_permissions context)
                   && add_reactions (my_permissions context) in
  let allowed := negb in_guild || negb (author_is_member context)
                 || (history && reactions) in
  (fst run = Ok true <-> allowed = true) /\
  (allowed = true -> run = (Ok true, w)) /\
  (allowed = false ->
   fst run <> Ok true /\
   new_calls w (snd run)
     = [ Send (channel_id (react_channel context))
              (gettext (if history
                        then "Unable to react: no permission to add reactions."
                        else "Unable to react: no permission to read message history.")) ]).
Proof.
  intros run in_guild history reactions allowed.
  subst run allowed history reactions in_guild.
  unfold _check_reaction_permissions.
  destruct (bool_decide (is_Some (channel_guild (react_channel context))));
    cbn [negb orb]; [|now repeat split].
  destruct (author_is_member context); cbn [negb orb]; [|now repeat split].
  destruct (read_message_history (sender_permissions context)),
           (read_message_history (my_permissions context));
    cbn [negb orb andb].
  1: destruct (add_reactions (sender_permissions context)),
              (add_reactions (my_permissions context));
       cbn [negb orb andb]; [now repeat split| | |].
  all: unfold bind, send, ret;
       destruct (send_outcome discord _ _); cbn [fst snd];
       (split; [split; [intros [=]|discriminate]|]);
       (split; [discriminate|]); intros _;
       (split; [discriminate|]);
       (erewrite new_calls_app by reflexivity); reflexivity.
Qed.

Lemma reaction_needs_both_permissions_on_both_sides_witness :
  let context :=
    {| react_channel := Sample.general false;
       author_is_member := true;
       sender_permissions := {| read_message_history := true; add_reactions := true |};
       my_permissions := {| read_message_history := true; add_reactions := false |} |} in
  new_calls (Sample.world 4 [])
    (snd (_check_reaction_permissions (fun s => s) Sample.bot (Sample.discord [])
            context (Sample.world 4 [])))
  = [ Send 10 "Unable to react: no permission to add reactions." ].
Proof.
  intros context.
  destruct (reaction_needs_both_permissions_on_both_sides (fun s => s) Sample.bot
              (Sample.discord []) context (Sample.world 4 [])) as (_ & _ & H).
  destruct H as [_ H]; [reflexivity|]. rewrite H. reflexivity.
Defined.

(** ** The Meta cog *)

(** Brings every append whose left operand starts with a known character
    into head form. *)
Ltac normalise_append H :=
  repeat first
    [ rewrite append_cons in H
    | progress (change (String.append EmptyString ?x) with x in H) ].

Lemma prefix_append (p s : string) : String.prefix p (p +:+ s) = true.
Proof.
  induction p as [|c p IH]; [now destruct s|].
  rewrite append_cons. cbn [String.prefix].
  destruct (ascii_dec c c); [exact IH|contradiction].
Qed.

(** X18. In the name that [help] echoes for a command it cannot find, every
    at sign is followed by a zero width non-joiner: wherever the echoed
    name splits around an at sign, what follows starts with that
    character, so the text cannot spell a mention. *)
Theorem echoed_command_name_breaks_mentions (command before after : string) :
  Meta.command_name command = before +:+ "@" +:+ after ->
  String.prefix Meta.zero_width_non_joiner after = true.
Proof.
  unfold Meta.command_name. revert before.
  induction command as [|c rest IH]; intros before H.
  - destruct before; discriminate H.
  - cbn [replace_char] in H. destruct (Ascii.eqb c "@") eqn:Hc.
    + unfold Meta.zero_width_non_joiner in H at 1. normalise_append H.
      destruct before as [|b0 before]; normalise_append H.
      { injection H as <-.
        match goal with
        | |- String.prefix _ (String _ (String _ (String _ ?r))) = true =>
            exact (prefix_append Meta.zero_width_non_joiner r)
        end. }
      injection H as _ H.
      do 3 (destruct before as [|? before]; normalise_append H;
            [discriminate H|injection H as _ H]).
      exact (IH _ H).
    + destruct before as [|b0 before]; normalise_append H.
      * injection H as -> _. discriminate Hc.
      * injection H as _ H. exact (IH _ H).
Qed.

Lemma echoed_command_name_breaks_mentions_witness :
  Meta.command_name "hi @everyone"
    = "hi " +:+ "@" +:+ (Meta.zero_width_non_joiner +:+ "everyone") /\
  String.prefix Meta.zero_width_non_joiner (Meta.zero_width_non_joiner +:+ "everyone")
    = true.
Proof.
  assert (H : Meta.command_name "hi @everyone"
              = "hi " +:+ "@" +:+ (Meta.zero_width_non_joiner +:+ "everyone"))
    by (vm_compute; reflexivity).
  split; [exact H|].
  exact (echoed_command_name_breaks_mentions "hi @everyone" "hi "
           (Meta.zero_width_non_joiner +:+ "everyone") H).
Defined.

(** X19. [source] builds a link exactly for commands of the bot's own
    package and for commands of [jishaku] or [ben_cogs].  For a command
    defined in a [discord] module it stops with [UnboundLocalError], since
    that branch never assigns [location]; for a command of any other
    package it stops with [UnboundLocalError] on [branch]. *)
Theorem source_link_exists_exactly_for_known_packages
    (own_module : string) (relpath : string -> string) (repo : string)
    (obj : Meta.Command) :
  let module := Meta.callback_module obj in
  let own := String.prefix (before_char "." own_module) module in
  let discord := String.prefix "discord" module in
  let cogs := String.prefix "jishaku" module || String.prefix "ben_cogs" module in
  match Meta.source_link own_module relpath repo obj with
  | inr link => own || (negb discord && cogs) = true
  | inl (Meta.UnboundLocalError name) =>
      own = false /\
      (discord = true /\ name = "location" \/
       discord = false /\ cogs = false /\ name = "branch")
  end.
Proof.
  intros module own discord cogs. subst own discord cogs.
  unfold Meta.source_link. fold module.
  destruct (String.prefix (before_char "." own_module) module); [reflexivity|].
  destruct (String.prefix "discord" module).
  - cbn. split; [reflexivity|]. left. now split.
  - destruct (String.prefix "jishaku" module); [reflexivity|].
    destruct (String.prefix "ben_cogs" module); [reflexivity|].
    cbn. split; [reflexivity|]. right. now repeat split.
Qed.

Example source_link_sample :
  Meta.source_link "emote_collector.extensions.meta" (fun path => path) "https://example.org/repo"
    {| Meta.callback_module := "emote_collector.extensions.emote";
       Meta.co_filename := "emote_collector/extensions/emote.py";
       Meta.firstlineno := 139; Meta.lines := 15 |}
  = inr "<https://example.org/repo/blob/master/emote_collector/extensions/emote.py#L139-L153>".
Proof. vm_compute. reflexivity. Qed.

(** ** Fetching an image *)

(** X20. [fetch_emote] hands back image data exactly when the HEAD request
    is answered OK with a content type that is literally [image/png],
    [image/jpeg] or [image/gif], and the GET request is answered OK too;
    the data are then the body of the GET response.  When the HEAD answer
    fails either test, the outcome is decided by it alone, whatever a GET
    would have returned. *)
Theorem image_is_fetched_only_after_head_check
    (head get : string -> Fetch.Response) (url : string) :
  let head_ok := String.eqb (Fetch.reason (head url)) "OK"
                 && Fetch.is_image_type (Fetch.content_type (head url)) in
  let get_ok := String.eqb (Fetch.reason (get url)) "OK" in
  ((exists data, Fetch.fetch_emote head get url = inr data) <-> head_ok && get_ok = true) /\
  (head_ok && get_ok = true ->
   Fetch.fetch_emote head get url = inr (Fetch.body (get url))) /\
  (head_ok = false ->
   forall get', Fetch.fetch_emote head get' url = Fetch.fetch_emote head get url).
Proof.
  intros head_ok get_ok. subst head_ok get_ok. unfold Fetch.fetch_emote.
  destruct (String.eqb (Fetch.reason (head url)) "OK"); cbn [negb andb].
  - destruct (Fetch.is_image_type _); cbn [negb andb].
    + destruct (String.eqb (Fetch.reason (get url)) "OK"); cbn [negb].
      * split; [|split; [reflexivity|discriminate]].
        split; [reflexivity|]. intros _. now eexists.
      * split; [|split; discriminate].
        split; [intros [? [=]]|discriminate].
    + split; [|split; [discriminate|reflexivity]].
      split; [intros [? [=]]|discriminate].
  - split; [|split; [discriminate|reflexivity]].
    split; [intros [? [=]]|discriminate].
Qed.

Lemma image_is_fetched_only_after_head_check_witness :
  let page := {| Fetch.reason := "OK"; Fetch.status := 200;
                 Fetch.content_type := Some "text/html"; Fetch.body := "<html>" |} in
  let image := {| Fetch.reason := "OK"; Fetch.status := 200;
                  Fetch.content_type := Some "image/png"; Fetch.body := "PNG" |} in
  Fetch.fetch_emote (fun _ => page) (fun _ => image) "https://example.org/"
  = inl Fetch.InvalidImageError.
Proof.
  intros page image.
  rewrite (proj2 (proj2 (image_is_fetched_only_after_head_check
                           (fun _ => page) (fun _ => page) "https://example.org/"))
                 eq_refl (fun _ => image)).
  reflexivity.
Defined.

Example charset_suffix_is_not_an_image_type :
  Fetch.fetch_emote
    (fun _ => {| Fetch.reason := "OK"; Fetch.status := 200;
                 Fetch.content_type := Some "image/png; charset=binary";
                 Fetch.body := "" |})
    (fun _ => {| Fetch.reason := "OK"; Fetch.status := 200;
                 Fetch.content_type := Some "image/png"; Fetch.body := "PNG" |})
    "https://example.org/a.png"
  = inl Fetch.InvalidImageError.
Proof. reflexivity. Qed.
